(** * TSDB-Backtester: the time-indexed record container

    A shallow embedding of [src/lib/datapoint.{hpp,cpp}] and
    [src/lib/timeseries.hpp] (with the archived [frequency] stub of
    [src/archive/timeseries_poly.cpp]).

    - [time_t] keys are integers; the code only compares and copies them,
      so they are taken in [Z].
    - [std::map<time_t,T>] is the in-order sequence of its nodes: a list of
      (key, value) pairs whose keys increase strictly ([StdMap.ok]).
    - A [TimeSeries<T>] is an object in a store indexed by addresses, since
      the code compares [this] with [&rhs] and its two memberspaces keep a
      reference to their owner.
    - Exceptions and undefined behaviour are outcomes of a computation.
    - What a function returns by reference is a reference either to an
      element of the map or to a temporary that is gone when it is read. *)

From stdpp Require Import gmap strings list sorting.
From Stdlib Require Import ZArith Lia.

Open Scope string_scope.
Open Scope list_scope.
Open Scope Z_scope.

Abbreviation time_t := Z.

(** ** Exceptions and outcomes *)

Inductive exn : Type :=
  | out_of_range                              (* std::out_of_range *)
  | bad_alloc                                 (* std::bad_alloc *)
  | DataPointException (error_code : Z)       (* datapoint.hpp *)
  | TimeSeriesException (message : string).   (* timeseries.hpp *)

Inductive outcome (A : Type) : Type :=
  | Returns (a : A)
  | Throws (e : exn)
  | Undefined.
Arguments Returns {A} a.
Arguments Throws {A} e.
Arguments Undefined {A}.

Definition obind {A B} (c : outcome A) (k : A -> outcome B) : outcome B :=
  match c with
  | Returns a => k a
  | Throws e => Throws e
  | Undefined => Undefined
  end.

(** [try { body } catch (E& e) { handler }]: [catches e] tells whether the
    handler's type matches the exception in flight. *)
Definition try_catch {A} (body : outcome A) (catches : exn -> bool)
    (handler : exn -> outcome A) : outcome A :=
  match body with
  | Throws e => if catches e then handler e else Throws e
  | r => r
  end.

Definition is_out_of_range (e : exn) : bool :=
  match e with out_of_range => true | _ => false end.

Definition throws {A} (c : outcome A) : Prop := exists e, c = Throws e.

(** ** [std::vector<double>::at] *)

Definition vector_at {A} (v : list A) (n : nat) : outcome A :=
  match v !! n with
  | Some x => Returns x
  | None => Throws out_of_range
  end.

(** ** datapoint.hpp / datapoint.cpp *)

(** [DataPointException::messages] *)
Definition messages : list (Z * string) :=
  [ (1000, "Vector initialization failed. Index out of range.");
    (0, "Unknown DataPoint Exception.") ].

(** The four [dp_names] templates: the three explicit specialisations and
    the primary template, which every other type derived from [DataPoint]
    selects. *)
Inductive schema : Type :=
  | schema_OHLC
  | schema_OHLCV
  | schema_BidAsk
  | schema_derived (class_name : string).

Definition dp_names (s : schema) : list string :=
  match s with
  | schema_OHLC => ["open"; "high"; "low"; "close"]
  | schema_OHLCV => ["open"; "high"; "low"; "close"; "volume"]
  | schema_BidAsk => ["bid"; "ask"]
  | schema_derived _ => [EmptyString]
  end.

(** [BOOST_STATIC_ASSERT((boost::is_base_of<DataPoint, T>::value))]: a type
    can instantiate [dp_names] and [TimeSeries] only with an instance. *)
Class DataPoint (T : Type) : Type := { schema_of : schema }.
Arguments schema_of T {_}.

Section DataPoints.
(** [double] and the implicit conversion [double -> int] used by the
    [volume] initialiser are those of the platform. *)
Context {double : Type} (int_of_double : double -> Z).

Record OHLC : Type := mkOHLC
  { open : double; high : double; low : double; close : double }.

(* int volume; double open, high, low, close; *)
Record OHLCV : Type := mkOHLCV
  { volume : Z; vopen : double; vhigh : double; vlow : double;
    vclose : double }.

Record BidAsk : Type := mkBidAsk { bid : double; ask : double }.

Definition datapoint_error {A} (e : exn) : outcome A :=
  Throws (DataPointException 1000).

(** Members are initialised in the order of their declaration. *)
Definition OHLC_of_vector (init : list double) : outcome OHLC :=
  try_catch
    (obind (vector_at init 0) (fun o =>
     obind (vector_at init 1) (fun h =>
     obind (vector_at init 2) (fun l =>
     obind (vector_at init 3) (fun c =>
     Returns (mkOHLC o h l c))))))
    is_out_of_range datapoint_error.

Definition OHLCV_of_vector (init : list double) : outcome OHLCV :=
  try_catch
    (obind (vector_at init 4) (fun v =>
     obind (vector_at init 0) (fun o =>
     obind (vector_at init 1) (fun h =>
     obind (vector_at init 2) (fun l =>
     obind (vector_at init 3) (fun c =>
     Returns (mkOHLCV (int_of_double v) o h l c)))))))
    is_out_of_range datapoint_error.

Definition BidAsk_of_vector (init : list double) : outcome BidAsk :=
  try_catch
    (obind (vector_at init 0) (fun b =>
     obind (vector_at init 1) (fun a =>
     Returns (mkBidAsk b a))))
    is_out_of_range datapoint_error.

#[export] Instance OHLC_DataPoint : DataPoint OHLC :=
  {| schema_of := schema_OHLC |}.
#[export] Instance OHLCV_DataPoint : DataPoint OHLCV :=
  {| schema_of := schema_OHLCV |}.
#[export] Instance BidAsk_DataPoint : DataPoint BidAsk :=
  {| schema_of := schema_BidAsk |}.
End DataPoints.

Arguments OHLC : clear implicits.
Arguments OHLCV : clear implicits.
Arguments BidAsk : clear implicits.

(** ** References

    What an expression of type [A&] refers to.  [into_node] is a reference
    to an element (or to a member of an element) stored in a container.
    [into_temporary] is a reference into a temporary object that was
    materialised for a call and is destroyed when the full expression of
    the call ends: the reference that the caller receives is dangling, and
    reading through it is undefined. *)

Inductive reference (A : Type) : Type :=
  | into_node (a : A)
  | into_temporary (a : A).
Arguments into_node {A} a.
Arguments into_temporary {A} a.

(** The lvalue-to-rvalue conversion. *)
Definition read {A} (r : reference A) : outcome A :=
  match r with
  | into_node a => Returns a
  | into_temporary _ => Undefined
  end.

(** ** [std::map<time_t, V>]

    The map is the sequence of its nodes in key order.  An iterator is the
    part of that sequence that starts at its node, [end()] being the empty
    part; a reverse iterator walks the reversed sequence. *)

Module StdMap.
Section StdMap.
Context {V : Type}.

Definition value_type : Type := time_t * V.
Definition t : Type := list value_type.
Definition iterator : Type := list value_type.

Definition ok (m : t) : Prop := StronglySorted Z.lt (m.*1).

Definition empty_map : t := [].

Fixpoint find (k : time_t) (m : t) : option V :=
  match m with
  | [] => None
  | (k', v) :: m' => if decide (k = k') then Some v else find k m'
  end.

(** [at]: checked access. *)
Definition at_ (m : t) (k : time_t) : outcome V :=
  match find k m with
  | Some v => Returns v
  | None => Throws out_of_range
  end.

(** The position of a new node: before the first larger key. *)
Fixpoint place (k : time_t) (v : V) (m : t) : t :=
  match m with
  | [] => [(k, v)]
  | (k', v') :: m' =>
      if decide (k < k') then (k, v) :: m else (k', v') :: place k v m'
  end.

(** [insert] and [emplace] return (iterator, bool); the container keeps at
    most one node per key.  Only the flag is used by the callers. *)
Definition insert (val : value_type) (m : t) : t * bool :=
  match find val.1 m with
  | Some _ => (m, false)
  | None => (place val.1 val.2 m, true)
  end.

Definition emplace (k : time_t) (v : V) (m : t) : t * bool := insert (k, v) m.

Definition size (m : t) : nat := length m.
Definition empty (m : t) : bool := match m with [] => true | _ => false end.
Definition clear (m : t) : t := [].

Definition begin (m : t) : iterator := m.
Definition end_ (m : t) : iterator := [].
Definition rbegin (m : t) : iterator := reverse m.

(** [*it] and [it->first]; dereferencing [end()] is undefined. *)
Definition deref (it : iterator) : outcome value_type :=
  match it with
  | p :: _ => Returns p
  | [] => Undefined
  end.

Definition next (it : iterator) : iterator := tail it.

(** Two iterators into one map are equal when they stand at the same node,
    that is when what remains after them is equally long. *)
Definition iterator_eq (a b : iterator) : Prop := length a = length b.

#[export] Instance iterator_eq_dec a b : Decision (iterator_eq a b) :=
  decide (length a = length b).

(** [boost::transform_iterator]: a map iterator read through a function
    object, whose result is what the iterator dereferences to. *)
Record transform_iterator (B : Type) : Type := make_transform_iterator
  { base : iterator; functor : value_type -> reference B }.
Arguments make_transform_iterator {B} base functor.
Arguments base {B}.
Arguments functor {B}.

(** The loop [for (; first != last; ++first)] that reads what [f] gives
    for each element and writes it to an output iterator; the result lists
    what was written. *)
Fixpoint copy_from {B} (f : value_type -> reference B) (first last : iterator)
    : outcome (list B) :=
  if decide (iterator_eq first last) then Returns []
  else
    match first with
    | [] => Undefined
    | p :: first' =>
        obind (read (f p)) (fun b =>
        obind (copy_from f first' last) (fun out => Returns (b :: out)))
    end.

(** [std::copy(first, last, out)] and [boost::copy(range, out)]. *)
Definition copy {B} (first last : transform_iterator B) : outcome (list B) :=
  copy_from (functor first) (base first) (base last).

(** Assignment to the mapped value of the node with key [k], through a
    reference or an iterator to it; the keys stay. *)
Definition assign_mapped (k : time_t) (v : V) (m : t) : t :=
  (fun p : value_type => if decide (p.1 = k) then (p.1, v) else p) <$> m.

(** The constructor from an initializer list inserts the pairs one after
    the other. *)
Definition of_list (l : list value_type) : t :=
  foldl (fun m p => (insert p m).1) empty_map l.

End StdMap.
Arguments t : clear implicits.
Arguments iterator : clear implicits.
Arguments value_type : clear implicits.
Arguments transform_iterator : clear implicits.
Arguments make_transform_iterator {V B} base functor.
Arguments base {V B}.
Arguments functor {V B}.
End StdMap.

(** ** boost::posix_time

    A [ptime] is kept as its offset from 1970-01-01 00:00:00 in seconds, a
    [time_duration] as its length in seconds. *)

Record ptime : Type := mkptime { seconds_since_epoch : Z }.
Record time_duration : Type := mktime_duration { total_seconds : Z }.

Definition from_time_t (t : time_t) : ptime := mkptime t.
Definition time_duration_default : time_duration := mktime_duration 0.

Definition ptime_le (a b : ptime) : Prop :=
  seconds_since_epoch a <= seconds_since_epoch b.

(** ** Behaviour the C++ standard leaves to the library

    A moved-from [std::string] is valid but unspecified, and so is a map
    whose copy assignment threw half way.  A moved-from [std::map] is
    empty: its nodes now belong to the destination.  [emplace] may
    construct its node before it looks for the key, and then allocates
    also when the key is present ([emplace_constructs_first]); [insert] of
    a pair looks for the key first. *)

Class StdLib (T : Type) : Type :=
  { moved_from_string : string -> string;
    emplace_constructs_first : bool;
    map_assign_residue : StdMap.t T -> StdMap.t T -> StdMap.t T;
    map_assign_residue_ok old src :
      StdMap.ok old -> StdMap.ok src -> StdMap.ok (map_assign_residue old src) }.

(** ** What is written to [std::cout]

    The text itself for strings; numbers and times are kept as values, how
    the stream formats them being the stream's business. *)

Inductive token : Type :=
  | Text (s : string)
  | Number (n : nat)
  | Time (t : ptime)
  | Endl.

(** ** timeseries.hpp: objects and the store *)

Abbreviation addr := positive.

Module timeseries.

Record Values : Type := mkValues { values_owner : addr }.
Record TimeStamps : Type := mkTimeStamps { timestamps_owner : addr }.

Section TimeSeries.
Context {T : Type} `{DataPoint T} `{StdLib T}.

(* Members in the order of their declaration in the class. *)
Record TimeSeries : Type := mkTimeSeries
  { values : Values;
    timestamps : TimeStamps;
    _data : StdMap.t T;
    _meta : string;
    _isLoaded : bool }.

(** [oom] tells, for each coming allocation that a member of an object
    asks for (the copy of a whole string or map, a new node of the map),
    whether it runs out of memory ([true]); past its end every allocation
    succeeds. *)
Record state : Type := mkState
  { objects : gmap addr TimeSeries;
    oom : list bool }.

Definition comp (A : Type) : Type := state -> outcome A * state.

Definition ret {A} (a : A) : comp A := fun σ => (Returns a, σ).

Definition bind {A B} (c : comp A) (k : A -> comp B) : comp B :=
  fun σ =>
    match c σ with
    | (Returns a, σ') => k a σ'
    | (Throws e, σ') => (Throws e, σ')
    | (Undefined, σ') => (Undefined, σ')
    end.

Definition lift {A} (r : outcome A) : comp A := fun σ => (r, σ).


#[local] Instance comp_bind : MBind comp := fun A B k c => bind c k.

(** *** Access to the members of the object at an address.  Using an
    object that is not alive is undefined. *)

Definition load (a : addr) : comp TimeSeries :=
  fun σ =>
    match objects σ !! a with
    | Some s => (Returns s, σ)
    | None => (Undefined, σ)
    end.

Definition store (a : addr) (s : TimeSeries) : comp unit :=
  fun σ => (Returns tt, mkState (<[a := s]> (objects σ)) (oom σ)).

Definition get_values (a : addr) : comp Values := s ← load a; ret (values s).
Definition get_timestamps_member (a : addr) : comp TimeStamps :=
  s ← load a; ret (timestamps s).
Definition get_data (a : addr) : comp (StdMap.t T) := s ← load a; ret (_data s).
Definition get_meta (a : addr) : comp string := s ← load a; ret (_meta s).
Definition get_isLoaded (a : addr) : comp bool := s ← load a; ret (_isLoaded s).

Definition set_data (a : addr) (d : StdMap.t T) : comp unit :=
  s ← load a;
  store a (mkTimeSeries (values s) (timestamps s) d (_meta s) (_isLoaded s)).

Definition set_meta_member (a : addr) (m : string) : comp unit :=
  s ← load a;
  store a (mkTimeSeries (values s) (timestamps s) (_data s) m (_isLoaded s)).

Definition set_isLoaded (a : addr) (b : bool) : comp unit :=
  s ← load a;
  store a (mkTimeSeries (values s) (timestamps s) (_data s) (_meta s) b).

(** *** Copies and moves of the members *)

(** The copy of a whole string or map: it asks [oom]. *)
Definition deep_copy {A} (x : A) : comp A :=
  fun σ =>
    match oom σ with
    | true :: rest => (Throws bad_alloc, mkState (objects σ) rest)
    | false :: rest => (Returns x, mkState (objects σ) rest)
    | [] => (Returns x, σ)
    end.

(** The allocation of one node of the map. *)
Definition allocate_node : comp unit := deep_copy tt.

(** The store after an allocation: the head of [oom] is used up. *)
Definition after_allocation (σ : state) : state :=
  mkState (objects σ) (tail (oom σ)).

(** None of the next [n] allocations runs out of memory. *)
Definition granted (n : nat) (σ : state) : Prop := true ∉ take n (oom σ).

(** What a failing operation leaves behind before the exception goes on. *)
Definition on_throw {A} (c : comp A) (leftover : comp unit) : comp A :=
  fun σ =>
    match c σ with
    | (Throws e, σ') =>
        match leftover σ' with
        | (Returns _, σ'') => (Throws e, σ'')
        | (Throws e', σ'') => (Throws e', σ'')
        | (Undefined, σ'') => (Undefined, σ'')
        end
    | r => r
    end.

(** [a._data = d] (copy assignment of the map): basic guarantee. *)
Definition copy_assign_data (a : addr) (d : StdMap.t T) : comp unit :=
  old ← get_data a;
  d' ← on_throw (deep_copy d) (set_data a (map_assign_residue old d));
  set_data a d'.

(** [a._meta = m] and [a._meta.assign(m)]: no effect when they throw. *)
Definition copy_assign_meta (a : addr) (m : string) : comp unit :=
  _ ← load a;
  m' ← deep_copy m;
  set_meta_member a m'.

(** [std::move(a._data)] consumed by a move constructor or assignment. *)
Definition take_data (a : addr) : comp (StdMap.t T) :=
  d ← get_data a;
  set_data a StdMap.empty_map;;
  ret d.

Definition take_meta (a : addr) : comp string :=
  m ← get_meta a;
  set_meta_member a (moved_from_string m);;
  ret m.

(** *** Construction and destruction *)

(** Storage for a new object must not hold a live one. *)
Definition construct (this : addr) (s : TimeSeries) : comp unit :=
  fun σ =>
    match objects σ !! this with
    | None => store this s σ
    | Some _ => (Undefined, σ)
    end.

Definition release (this : addr) : comp unit :=
  fun σ => (Returns tt, mkState (delete this (objects σ)) (oom σ)).

(* ~TimeSeries() = default *)
Definition destroy (this : addr) : comp unit :=
  _ ← load this;
  release this.

(** The address of a temporary: any address not in use. *)
Definition temporary : comp addr :=
  fun σ => (Returns (fresh (dom (objects σ))), σ).

(* TimeSeries( const std::string& meta ), default constructor *)
Definition TimeSeries_default (this : addr) (meta : string) : comp unit :=
  m ← deep_copy meta;
  construct this
    (mkTimeSeries (mkValues this) (mkTimeStamps this) StdMap.empty_map m false).

(* TimeSeries( const TimeSeries& ts ) *)
Definition TimeSeries_copy (this ts : addr) : comp unit :=
  d0 ← get_data ts;
  d ← deep_copy d0;
  m0 ← get_meta ts;
  m ← deep_copy m0;
  l ← get_isLoaded ts;
  construct this (mkTimeSeries (mkValues this) (mkTimeStamps this) d m l).

(* TimeSeries( TimeSeries&& ts ) *)
Definition TimeSeries_move (this ts : addr) : comp unit :=
  d ← take_data ts;
  m ← take_meta ts;
  l ← get_isLoaded ts;
  construct this (mkTimeSeries (mkValues this) (mkTimeStamps this) d m l);;
  set_isLoaded ts false.

(** *** Assignment *)

(* friend void swap(TimeSeries<T>& ts1, TimeSeries<T>& ts2) *)
Definition swap (ts1 ts2 : addr) : comp unit :=
  l1 ← get_isLoaded ts1;
  l2 ← get_isLoaded ts2;
  set_isLoaded ts1 l2;;
  set_isLoaded ts2 l1;;
  m1 ← get_meta ts1;
  m2 ← get_meta ts2;
  set_meta_member ts1 m2;;
  set_meta_member ts2 m1;;
  d1 ← get_data ts1;
  d2 ← get_data ts2;
  set_data ts1 d2;;
  set_data ts2 d1.

(** How the by-value parameter of [assign] is initialised: copied from an
    lvalue or moved from an rvalue. *)
Inductive argument : Type :=
  | lvalue (a : addr)
  | rvalue (a : addr).

(* TimeSeries& assign( TimeSeries rhs ) *)
Definition assign (this : addr) (arg : argument) : comp addr :=
  rhs ← temporary;
  match arg with
  | lvalue a => TimeSeries_copy rhs a
  | rvalue a => TimeSeries_move rhs a
  end;;
  swap this rhs;;
  destroy rhs;;
  ret this.

(* TimeSeries& operator=(const TimeSeries& rhs) *)
Definition operator_assign_copy (this rhs : addr) : comp addr :=
  if decide (this ≠ rhs) then
    d ← get_data rhs;
    copy_assign_data this d;;
    m ← get_meta rhs;
    copy_assign_meta this m;;
    l ← get_isLoaded rhs;
    set_isLoaded this l;;
    ret this
  else ret this.

(* TimeSeries& operator=(TimeSeries&& rhs) *)
Definition operator_assign_move (this rhs : addr) : comp addr :=
  if decide (this ≠ rhs) then
    m ← take_meta rhs;
    set_meta_member this m;;
    d ← take_data rhs;
    set_data this d;;
    l ← get_isLoaded rhs;
    set_isLoaded this l;;
    set_isLoaded rhs false;;
    ret this
  else ret this.

(** *** Mutators *)

(* bool insert( const typename TimeMap::value_type& val ) and its rvalue
   overload.  [_data.insert] allocates a node when the key is new and has
   no effect when it throws. *)
Definition insert (this : addr) (val : StdMap.value_type T) : comp bool :=
  d ← get_data this;
  (if (StdMap.insert val d).2 then allocate_node else ret tt);;
  set_data this (StdMap.insert val d).1;;
  ret (StdMap.insert val d).2.

(* bool insert( time_t&& t, typename TimeMap::mapped_type&& mval ).
   [_data.emplace] allocates a node when the key is new, and also when it
   is not if the library constructs the node first. *)
Definition insert_emplace (this : addr) (t : time_t) (mval : T) : comp bool :=
  d ← get_data this;
  (if emplace_constructs_first || (StdMap.emplace t mval d).2
   then allocate_node else ret tt);;
  set_data this (StdMap.emplace t mval d).1;;
  ret (StdMap.emplace t mval d).2.

(* void clear() *)
Definition clear (this : addr) : comp unit :=
  d ← get_data this;
  set_data this (StdMap.clear d).

(* void set_meta( const std::string& meta ) *)
Definition set_meta (this : addr) (meta : string) : comp unit :=
  copy_assign_meta this meta.

(** *** Iterators and accessors *)

Definition begin (this : addr) : comp (StdMap.iterator T) :=
  d ← get_data this; ret (StdMap.begin d).

Definition end_ (this : addr) : comp (StdMap.iterator T) :=
  d ← get_data this; ret (StdMap.end_ d).

(** [const_iterator on(time_t tm) const] has no counterpart here: its body
    returns [_data.at(tm)], a [T], where the function is to return a
    [const_iterator], and [T] does not convert to one, so the member
    template cannot be instantiated by any call. *)

(* typename TimeMap::mapped_type& operator[] (const key_type& k)  //throws *)
Definition operator_index (this : addr) (k : time_t) : comp T :=
  d ← get_data this;
  lift (StdMap.at_ d k).

(* size_t size() const *)
Definition size (this : addr) : comp nat :=
  d ← get_data this; ret (StdMap.size d).

(* bool isEmpty() const *)
Definition isEmpty (this : addr) : comp bool :=
  d ← get_data this; ret (StdMap.empty d).

(* bool isLoaded() const *)
Definition isLoaded (this : addr) : comp bool := get_isLoaded this.

(* std::string meta() const *)
Definition meta (this : addr) : comp string := get_meta this.

(* bpt::ptime first() const *)
Definition first (this : addr) : comp ptime :=
  d ← get_data this;
  p ← lift (StdMap.deref (StdMap.begin d));
  ret (from_time_t p.1).

(* bpt::ptime last() const *)
Definition last (this : addr) : comp ptime :=
  n ← size this;
  d ← get_data this;
  if decide (n = 0%nat) then
    p ← lift (StdMap.deref (StdMap.begin d));
    ret (from_time_t p.1)
  else
    p ← lift (StdMap.deref (StdMap.rbegin d));
    ret (from_time_t p.1).

(** [_data | boost::adaptors::map_keys]: each position refers to the key
    of its node. *)
Definition map_keys (d : StdMap.t T)
    : StdMap.transform_iterator T time_t * StdMap.transform_iterator T time_t :=
  (StdMap.make_transform_iterator (StdMap.begin d) (fun p => into_node p.1),
   StdMap.make_transform_iterator (StdMap.end_ d) (fun p => into_node p.1)).

(* std::vector<time_t> get_timestamps() *)
Definition get_timestamps (this : addr) : comp (list time_t) :=
  let ts : list time_t := [] in
  d ← get_data this;
  copied ← lift (StdMap.copy (map_keys d).1 (map_keys d).2);
  ret (ts ++ copied).

(* std::vector<std::string> column_names() const *)
Definition column_names (this : addr) : comp (list string) :=
  _ ← load this;
  ret (dp_names (schema_of T)).

(** *** The two memberspaces *)

(** The function objects of the two memberspaces take their argument as
    [const std::pair<time_t, T>&].  The nodes of the map are of another
    type, [std::pair<const time_t, T>], so each call converts the node into
    a temporary pair and binds the parameter to that; the [T&] or [time_t&]
    that is returned refers to a member of the temporary. *)

(* T& operator() (const std::pair<time_t, T> &p) const *)
Definition getDataPoint (p : StdMap.value_type T) : reference T :=
  into_temporary p.2.

(* time_t& operator()(const std::pair<time_t, T> &p) const *)
Definition getTimeStamp (p : StdMap.value_type T) : reference time_t :=
  into_temporary p.1.

Definition Values_begin (v : Values) : comp (StdMap.transform_iterator T T) :=
  it ← begin (values_owner v);
  ret (StdMap.make_transform_iterator it getDataPoint).

Definition Values_end (v : Values) : comp (StdMap.transform_iterator T T) :=
  it ← end_ (values_owner v);
  ret (StdMap.make_transform_iterator it getDataPoint).

Definition TimeStamps_begin (v : TimeStamps)
    : comp (StdMap.transform_iterator T time_t) :=
  d ← get_data (timestamps_owner v);
  ret (StdMap.make_transform_iterator (StdMap.begin d) getTimeStamp).

Definition TimeStamps_end (v : TimeStamps)
    : comp (StdMap.transform_iterator T time_t) :=
  d ← get_data (timestamps_owner v);
  ret (StdMap.make_transform_iterator (StdMap.end_ d) getTimeStamp).

(** A full traversal, as in
    [std::copy(ts.timestamps.begin(), ts.timestamps.end(), out)]. *)
Definition traverse_values (this : addr) : comp (list T) :=
  v ← get_values this;
  b ← Values_begin v;
  e ← Values_end v;
  lift (StdMap.copy b e).

Definition traverse_timestamps (this : addr) : comp (list time_t) :=
  v ← get_timestamps_member this;
  b ← TimeStamps_begin v;
  e ← TimeStamps_end v;
  lift (StdMap.copy b e).

(** *** Populating a series: one [insert] per row, as the loader does *)

Fixpoint insert_each (this : addr) (rows : list (StdMap.value_type T))
    : comp (list bool) :=
  match rows with
  | [] => ret []
  | row :: rows' =>
      inserted ← insert_emplace this row.1 row.2;
      flags ← insert_each this rows';
      ret (inserted :: flags)
  end.

(** *** Well-formed stores: every memberspace refers to the object that
    contains it, and every map is in key order. *)

Definition object_ok (a : addr) (s : TimeSeries) : Prop :=
  values_owner (values s) = a /\
  timestamps_owner (timestamps s) = a /\
  StdMap.ok (_data s).

Definition state_ok (σ : state) : Prop :=
  forall a s, objects σ !! a = Some s -> object_ok a s.

(** [keeps c Q]: run from a well-formed store, [c] ends in a well-formed
    store, whatever its outcome, and a value it returns satisfies [Q]. *)
Definition keeps {A} (c : comp A) (Q : A -> Prop) : Prop :=
  forall σ,
    state_ok σ ->
    state_ok (c σ).2 /\ forall a, (c σ).1 = Returns a -> Q a.

(** The store with the object at [this] replaced. *)
Definition replaced (σ : state) (this : addr) (s' : TimeSeries) : state :=
  mkState (<[this := s']> (objects σ)) (oom σ).

(** What an assignment is to replace. *)
Definition content (s : TimeSeries) : StdMap.t T * string * bool :=
  (_data s, _meta s, _isLoaded s).

(** *** Writing a record in place

    [operator[]] returns a reference to the mapped value, and the iterators
    of the container dereference to nodes whose records can be assigned
    to.  (The iterators of the two memberspaces dereference to members of
    temporaries; writing through them is undefined and has no counterpart
    here.) *)

(* ts[k] = v *)
Definition write_index (this : addr) (k : time_t) (v : T) : comp unit :=
  d ← get_data this;
  _ ← lift (StdMap.at_ d k);
  set_data this (StdMap.assign_mapped k v d).

(* it = ts.begin(); advanced i times; it->second = v *)
Definition write_nth (this : addr) (i : nat) (v : T) : comp unit :=
  d ← get_data this;
  match d !! i with
  | Some p => set_data this (StdMap.assign_mapped p.1 v d)
  | None => lift Undefined
  end.

(** *** Iterating the container itself, as in
    [for( iterator it = ts.begin(); it != ts.end(); ++it )] *)

Definition traverse (this : addr) : comp (list (StdMap.value_type T)) :=
  b ← begin this;
  e ← end_ this;
  lift (StdMap.copy_from into_node b e).

(* void print_meta() *)
Definition print_meta (this : addr) : comp (list token) :=
  cols ← column_names this;
  let out := [Endl] in
  m ← get_meta this;
  let out := out ++ [Text "Meta/Name: "; Text m; Endl] in
  n ← size this;
  let out :=
    out ++ [Text "Dimensions: "; Number n; Text " rows, ";
            Number (length cols + 1); Text " columns"; Endl] in
  let out := out ++ [Text "Columns: "] in
  let out := out ++ flat_map (fun c => [Text c; Text " "]) cols in
  let out := out ++ [Endl] in
  f ← first this;
  let out := out ++ [Text "First timestamp: "; Time f; Endl] in
  l ← last this;
  ret (out ++ [Text "Last timestamp: "; Time l; Endl]).

(** *** Properties of every object of a store *)

Definition all_objects (P : addr -> TimeSeries -> Prop) (σ : state) : Prop :=
  forall a s, objects σ !! a = Some s -> P a s.

(** [maintains P c Q]: if [P] holds of every object before [c], it holds
    of every object after it, whatever the outcome, and a value returned
    satisfies [Q]. *)
Definition maintains (P : addr -> TimeSeries -> Prop) {A} (c : comp A)
    (Q : A -> Prop) : Prop :=
  forall σ,
    all_objects P σ ->
    all_objects P (c σ).2 /\ forall a, (c σ).1 = Returns a -> Q a.

Definition not_loaded (a : addr) (s : TimeSeries) : Prop :=
  _isLoaded s = false.

(** *** The stores a program can reach

    A program gets at the members only through the constructors, the
    destructor, the assignments, [swap], the mutators and the references
    to records. *)

Inductive call : Type :=
  | call_default (this : addr) (meta : string)
  | call_copy (this ts : addr)
  | call_move (this ts : addr)
  | call_destroy (this : addr)
  | call_assign (this : addr) (arg : argument)
  | call_assign_copy (this rhs : addr)
  | call_assign_move (this rhs : addr)
  | call_swap (ts1 ts2 : addr)
  | call_insert (this : addr) (val : StdMap.value_type T)
  | call_insert_emplace (this : addr) (t : time_t) (mval : T)
  | call_clear (this : addr)
  | call_set_meta (this : addr) (meta : string)
  | call_write_index (this : addr) (k : time_t) (v : T)
  | call_write_nth (this : addr) (i : nat) (v : T).

Definition run (c : call) : comp unit :=
  match c with
  | call_default this meta => TimeSeries_default this meta
  | call_copy this ts => TimeSeries_copy this ts
  | call_move this ts => TimeSeries_move this ts
  | call_destroy this => destroy this
  | call_assign this arg => _ ← assign this arg; ret tt
  | call_assign_copy this rhs => _ ← operator_assign_copy this rhs; ret tt
  | call_assign_move this rhs => _ ← operator_assign_move this rhs; ret tt
  | call_swap ts1 ts2 => swap ts1 ts2
  | call_insert this val => _ ← insert this val; ret tt
  | call_insert_emplace this t mval => _ ← insert_emplace this t mval; ret tt
  | call_clear this => clear this
  | call_set_meta this meta => set_meta this meta
  | call_write_index this k v => write_index this k v
  | call_write_nth this i v => write_nth this i v
  end.

(** From a store without objects, by calls whose behaviour is defined;
    a call may return or throw. *)
Inductive reachable : state -> Prop :=
  | reachable_start (faults : list bool) : reachable (mkState ∅ faults)
  | reachable_call (σ : state) (c : call) :
      reachable σ -> (run c σ).1 <> Undefined -> reachable (run c σ).2.

End TimeSeries.

Arguments TimeSeries T : clear implicits.
Arguments state T : clear implicits.
Arguments comp T A : clear implicits.
Arguments call T : clear implicits.

End timeseries.

(** ** archive/timeseries_poly.{hpp,cpp}: the only [frequency] that returns *)

Module Archive.
Section Poly.
Context {double : Type}.

Record TimeSeries : Type := mkTimeSeries
  { _data : StdMap.t double;
    _frequency : time_t;
    _meta : string;
    _columns : list string;
    _isLoaded : bool }.

(* TimeSeries::TimeSeries( const std::string& meta ) *)
Definition TimeSeries_ctor (meta : string) : TimeSeries :=
  mkTimeSeries [] 0 meta [] false.

(* bpt::time_duration TimeSeries::frequency() *)
Definition frequency (this : TimeSeries) : outcome time_duration * TimeSeries :=
  (Returns time_duration_default, this).

End Poly.
Arguments TimeSeries : clear implicits.
End Archive.

(** ** The messages of the exception classes

    [what()] of [DataPointException] and of [TSDBInterfaceException]:
    the message of the code, or the message of code 0 when the table has
    none for it.  The function returns [c_str()] of the temporary string
    built here, a pointer that outlives the temporary: what is modelled is
    the string that is built and what is thrown, not what a caller reads
    through the pointer afterwards. *)

Definition what_string (base_msg : string) (messages : list (Z * string))
    (error_code : Z) : outcome string :=
  try_catch
    (obind (StdMap.at_ (StdMap.of_list messages) error_code) (fun m =>
     Returns (String.append base_msg m)))
    is_out_of_range
    (fun _ =>
     obind (StdMap.at_ (StdMap.of_list messages) 0) (fun m =>
     Returns (String.append base_msg m))).

(* const std::string DataPointException::base_msg *)
Definition base_msg : string := "DataPoint Exception: ".

(* DataPointException::what() *)
Definition DataPointException_what (error_code : Z) : outcome string :=
  what_string base_msg messages error_code.

(** ** tsdb.hpp / tsdb.cpp: what does not talk to the database *)

Module tsdb.

(* const std::string TSDBInterfaceException::base_msg *)
Definition base_msg : string := "TSDB Interface Exception: ".

(* const std::map<int,std::string> TSDBInterfaceException::messages *)
Definition messages : list (Z * string) :=
  [ (0, "Unknown TSDBInterface exception.");
    (1, "Could not connect to TSDB server.");
    (2, "Invalid table name.");
    (3, "Failed to load TSDB table.");
    (4, "Invalid date range request.");
    (5, "Column mismatch.");
    (6, "Failed to set session time zone.");
    (7, "MySQL server error.") ].

(* TSDBInterfaceException::what() *)
Definition what (error_code : Z) : outcome string :=
  what_string base_msg messages error_code.

(** [std::sort] of strings with [operator<]: the ascending arrangement. *)
Definition sort (l : list string) : list string := merge_sort String.le l.

(** [std::includes(first1, last1, first2, last2)] with [operator<]:
    [for (; first2 != last2; ++first1)], giving up when the first range
    is exhausted or its element is already larger, and moving on in the
    second range when the two elements are equivalent. *)
Fixpoint includes (range1 range2 : list string) : bool :=
  match range2 with
  | [] => true
  | y :: range2' =>
      match range1 with
      | [] => false
      | x :: range1' =>
          if String.ltb y x then false
          else if negb (String.ltb x y) then includes range1' range2'
          else includes range1' range2
      end
  end.

(** [template<typename T> bool _columns_match_type(const std::string& table)],
    from the column names that [get_column_names(table)] returned. *)
Definition _columns_match_type (T : Type) `{DataPoint T}
    (get_column_names : list string) : bool :=
  let columns := get_column_names in
  let t_columns := dp_names (schema_of T) in
  let columns := sort columns in
  let t_columns := sort t_columns in
  if negb (includes columns t_columns) then false else true.

End tsdb.

(** ** Concrete data for the examples

    Prices in the examples are doubles with integral values, written as
    integers. *)

(** A library whose moved-from strings are empty, whose failed map
    assignment leaves an empty map and whose [emplace] constructs the node
    before it looks for the key. *)
#[export] Instance emptying_stdlib (T : Type) : StdLib T :=
  {| moved_from_string := fun _ => EmptyString;
     emplace_constructs_first := true;
     map_assign_residue := fun _ _ => [];
     map_assign_residue_ok := fun _ _ _ _ => SSorted_nil Z.lt |}.

Definition bar (o h l c : Z) : OHLC Z := mkOHLC o h l c.

(** A type derived from [DataPoint] without a [dp_names] specialisation. *)
Record Trade : Type := mkTrade { price : Z; quantity : Z }.

#[export] Instance Trade_DataPoint : DataPoint Trade :=
  {| schema_of := schema_derived "Trade" |}.

Definition series_of {T : Type} (this : addr) (d : StdMap.t T) (m : string)
    (l : bool) : timeseries.TimeSeries T :=
  timeseries.mkTimeSeries (timeseries.mkValues this)
    (timeseries.mkTimeStamps this) d m l.

Definition state_of {T : Type} (objs : list (addr * timeseries.TimeSeries T))
    (faults : list bool) : timeseries.state T :=
  timeseries.mkState (list_to_map objs) faults.

Definition three_bars : StdMap.t (OHLC Z) :=
  [ (100, bar 10 12 9 11); (160, bar 11 13 10 12); (220, bar 12 15 11 14) ].

Definition one_bar : StdMap.t (OHLC Z) := [ (100, bar 10 12 9 11) ].

Definition label : string := "EURUSD one-minute bars, January to June 2013".

Definition three_bar_state : timeseries.state (OHLC Z) :=
  state_of [ (1%positive, series_of 1 three_bars "ts1" true) ] [].

Definition empty_series_state : timeseries.state (OHLC Z) :=
  state_of [ (1%positive, series_of 1 [] "ts1" false) ] [].

(** Two series, with the copies that are going to fail. *)
Definition two_series_state (faults : list bool) : timeseries.state (OHLC Z) :=
  state_of [ (1%positive, series_of 1 one_bar "ts1" false);
             (2%positive, series_of 2 three_bars label true) ] faults.

Definition trade_state : timeseries.state Trade :=
  state_of [ (1%positive, series_of 1 [ (100, mkTrade 5 1) ] "trades" false) ]
    [].

(** A series constructed and given one bar, from a store without objects. *)
Definition constructed_state : timeseries.state (OHLC Z) :=
  (timeseries.run (timeseries.call_default 1 "ts1")
     (timeseries.mkState ∅ [])).2.

Definition populated_state : timeseries.state (OHLC Z) :=
  (timeseries.run (timeseries.call_insert 1 (100, bar 10 12 9 11))
     constructed_state).2.

(** A series constructed while memory lasts; the allocation that comes
    next fails. *)
Definition exhausted_state : timeseries.state (OHLC Z) :=
  (timeseries.run (timeseries.call_default 1 "ts1")
     (timeseries.mkState ∅ [false; true])).2.

(** Rows of which the third repeats the timestamp of the first. *)
Definition repeating_rows : list (StdMap.value_type (OHLC Z)) :=
  [ (160, bar 11 13 10 12); (100, bar 10 12 9 11); (160, bar 0 0 0 0) ].

Definition archive_three : Archive.TimeSeries Z :=
  Archive.mkTimeSeries [ (100, 11); (160, 12); (220, 14) ] 0 "ts" [] false.

Definition archive_one : Archive.TimeSeries Z :=
  Archive.mkTimeSeries [ (100, 11) ] 0 "ts" [] false.

(** * Properties *)

(** ** The map *)

Section StdMapFacts.
Context {V : Type}.
Implicit Types (m : StdMap.t V) (k : time_t) (v : V).

Lemma find_None_keys k m : StdMap.find k m = None <-> k ∉ m.*1.
Proof.
  induction m as [|[k' v'] m IH]; simpl.
  - split; [intros _; apply not_elem_of_nil | done].
  - destruct (decide (k = k')) as [->|Hne].
    + split; [done | intros Hn; exfalso; apply Hn; left].
    + rewrite IH, not_elem_of_cons. tauto.
Qed.


Lemma find_place_eq k v m :
  StdMap.find k m = None -> StdMap.find k (StdMap.place k v m) = Some v.
Proof.
  induction m as [|[k' v'] m IH]; simpl.
  - by rewrite decide_True.
  - destruct (decide (k = k')) as [->|Hne]; [done|]. intros Hf.
    destruct (decide (k < k')); simpl.
    + by rewrite decide_True.
    + rewrite decide_False by done. auto.
Qed.

Lemma find_place_ne k k' v m :
  k' <> k -> StdMap.find k' (StdMap.place k v m) = StdMap.find k' m.
Proof.
  intros Hne. induction m as [|[k0 v0] m IH]; simpl.
  - by rewrite decide_False.
  - destruct (decide (k < k0)); simpl.
    + by rewrite decide_False.
    + by rewrite IH.
Qed.

Lemma place_length k v m : length (StdMap.place k v m) = S (length m).
Proof.
  induction m as [|[k' v'] m IH]; simpl; [done|].
  destruct (decide (k < k')); simpl; by rewrite ?IH.
Qed.

Lemma place_keys k v m : (StdMap.place k v m).*1 ≡ₚ k :: m.*1.
Proof.
  induction m as [|[k' v'] m IH]; simpl; [done|].
  destruct (decide (k < k')); simpl; [done|].
  rewrite IH. apply Permutation_swap.
Qed.

Lemma place_ok k v m :
  StdMap.ok m -> StdMap.find k m = None -> StdMap.ok (StdMap.place k v m).
Proof.
  unfold StdMap.ok. induction m as [|[k' v'] m IH]; simpl; intros Hok Hf.
  - repeat constructor.
  - apply StronglySorted_inv in Hok as [Hok Hall].
    destruct (decide (k = k')) as [->|Hne]; [done|].
    destruct (decide (k < k')) as [Hlt|Hge]; simpl.
    + constructor; [by constructor|].
      constructor; [done|]. eapply Forall_impl; [exact Hall|].
      simpl. intros. lia.
    + constructor; [by apply IH|].
      rewrite place_keys. constructor; [lia | done].
Qed.

Lemma insert_ok val m : StdMap.ok m -> StdMap.ok (StdMap.insert val m).1.
Proof.
  intros Hok. unfold StdMap.insert.
  destruct (StdMap.find val.1 m) eqn:Hf; simpl; [done|]. by apply place_ok.
Qed.


(** In a map in key order, the value found at a key is the one of its
    node. *)
Lemma find_elem k v m : StdMap.ok m -> (k, v) ∈ m -> StdMap.find k m = Some v.
Proof.
  unfold StdMap.ok. induction m as [|[k' v'] m IH]; simpl; intros Hok Hin.
  - by apply elem_of_nil in Hin.
  - apply StronglySorted_inv in Hok as [Hok Hall].
    apply elem_of_cons in Hin as [[= -> ->]|Hin].
    + by rewrite decide_True.
    + rewrite decide_False; [auto|]. intros ->.
      rewrite Forall_forall in Hall.
      assert (k' ∈ m.*1) as Hk by (apply list_elem_of_fmap; by exists (k', v)).
      specialize (Hall _ Hk). lia.
Qed.

Lemma copy_from_all {B} (f : StdMap.value_type V -> B) (it : StdMap.iterator V) :
  StdMap.copy_from (fun p => into_node (f p)) it (StdMap.end_ it) =
  Returns (f <$> it).
Proof.
  unfold StdMap.end_. induction it as [|p it IH]; [done|].
  cbn [StdMap.copy_from].
  destruct (decide (StdMap.iterator_eq (p :: it) [])) as [Heq|_]; [done|].
  simpl. by rewrite IH.
Qed.

(** A loop that reads through references into temporaries is defined only
    when it has nothing to read. *)
Lemma copy_from_temporaries {B} (f : StdMap.value_type V -> B)
    (it : StdMap.iterator V) :
  StdMap.copy_from (fun p => into_temporary (f p)) it (StdMap.end_ it) =
  match it with [] => Returns [] | _ :: _ => Undefined end.
Proof.
  unfold StdMap.end_. destruct it as [|p it]; [done|].
  cbn [StdMap.copy_from].
  by destruct (decide (StdMap.iterator_eq (p :: it) [])) as [Heq|_].
Qed.

Lemma deref_head (it : StdMap.iterator V) :
  StdMap.deref it = match head it with Some p => Returns p | None => Undefined end.
Proof. by destruct it. Qed.

Lemma ok_first_last (m : StdMap.t V) p q :
  StdMap.ok m -> head m = Some p -> last m = Some q ->
  p.1 <= q.1 /\ (p.1 = q.1 <-> length m = 1%nat).
Proof.
  unfold StdMap.ok. destruct m as [|p0 m]; simpl; [done|].
  intros Hok [= <-] Hq. apply StronglySorted_inv in Hok as [_ Hall].
  destruct m as [|p1 m].
  - injection Hq as <-. split; [lia | done].
  - rewrite last_cons in Hq. destruct (last (p1 :: m)) as [q'|] eqn:Hl;
      [|rewrite last_cons in Hl; by destruct (last m)].
    injection Hq as ->. apply last_Some_elem_of in Hl.
    apply (list_elem_of_fmap_2 fst) in Hl.
    rewrite Forall_forall in Hall. specialize (Hall _ Hl). simpl.
    split; [lia|]. split; [lia | done].
Qed.

End StdMapFacts.

(** ** Running the operations on a live object *)

Section Steps.
Context {T : Type} `{DataPoint T} `{StdLib T}.
Implicit Types (σ : timeseries.state T) (s : timeseries.TimeSeries T)
  (this : addr).

Lemma load_live σ this s :
  timeseries.objects σ !! this = Some s ->
  timeseries.load this σ = (Returns s, σ).
Proof. intros Hs. unfold timeseries.load. by rewrite Hs. Qed.

Lemma get_data_live σ this s :
  timeseries.objects σ !! this = Some s ->
  timeseries.get_data this σ = (Returns (timeseries._data s), σ).
Proof.
  intros Hs. unfold timeseries.get_data, mbind, timeseries.comp_bind,
    timeseries.bind. by rewrite (load_live _ _ _ Hs).
Qed.

Lemma get_meta_live σ this s :
  timeseries.objects σ !! this = Some s ->
  timeseries.get_meta this σ = (Returns (timeseries._meta s), σ).
Proof.
  intros Hs. unfold timeseries.get_meta, mbind, timeseries.comp_bind,
    timeseries.bind. by rewrite (load_live _ _ _ Hs).
Qed.

Lemma get_isLoaded_live σ this s :
  timeseries.objects σ !! this = Some s ->
  timeseries.get_isLoaded this σ = (Returns (timeseries._isLoaded s), σ).
Proof.
  intros Hs. unfold timeseries.get_isLoaded, mbind, timeseries.comp_bind,
    timeseries.bind. by rewrite (load_live _ _ _ Hs).
Qed.

Lemma set_data_live σ this s d :
  timeseries.objects σ !! this = Some s ->
  timeseries.set_data this d σ =
    (Returns tt,
     timeseries.mkState
       (<[this := timeseries.mkTimeSeries (timeseries.values s)
                    (timeseries.timestamps s) d (timeseries._meta s)
                    (timeseries._isLoaded s)]> (timeseries.objects σ))
       (timeseries.oom σ)).
Proof.
  intros Hs. unfold timeseries.set_data, mbind, timeseries.comp_bind,
    timeseries.bind. by rewrite (load_live _ _ _ Hs).
Qed.

Lemma set_meta_member_live σ this s m :
  timeseries.objects σ !! this = Some s ->
  timeseries.set_meta_member this m σ =
    (Returns tt,
     timeseries.mkState
       (<[this := timeseries.mkTimeSeries (timeseries.values s)
                    (timeseries.timestamps s) (timeseries._data s) m
                    (timeseries._isLoaded s)]> (timeseries.objects σ))
       (timeseries.oom σ)).
Proof.
  intros Hs. unfold timeseries.set_meta_member, mbind, timeseries.comp_bind,
    timeseries.bind. by rewrite (load_live _ _ _ Hs).
Qed.

Lemma set_isLoaded_live σ this s b :
  timeseries.objects σ !! this = Some s ->
  timeseries.set_isLoaded this b σ =
    (Returns tt,
     timeseries.mkState
       (<[this := timeseries.mkTimeSeries (timeseries.values s)
                    (timeseries.timestamps s) (timeseries._data s)
                    (timeseries._meta s) b]> (timeseries.objects σ))
       (timeseries.oom σ)).
Proof.
  intros Hs. unfold timeseries.set_isLoaded, mbind, timeseries.comp_bind,
    timeseries.bind. by rewrite (load_live _ _ _ Hs).
Qed.

(** Writing back what an object already holds changes nothing. *)
Lemma store_same σ this s :
  timeseries.objects σ !! this = Some s ->
  timeseries.mkState (<[this := s]> (timeseries.objects σ)) (timeseries.oom σ)
  = σ.
Proof. intros Hs. rewrite insert_id by done. by destruct σ. Qed.

Lemma allocate_node_granted σ :
  head (timeseries.oom σ) <> Some true ->
  timeseries.allocate_node σ = (Returns tt, timeseries.after_allocation σ).
Proof.
  unfold timeseries.allocate_node, timeseries.deep_copy,
    timeseries.after_allocation.
  destruct σ as [objs [|[] rest]]; simpl; done.
Qed.

Lemma allocate_node_refused σ :
  head (timeseries.oom σ) = Some true ->
  timeseries.allocate_node σ = (Throws bad_alloc, timeseries.after_allocation σ).
Proof.
  unfold timeseries.allocate_node, timeseries.deep_copy,
    timeseries.after_allocation.
  destruct σ as [objs [|[] rest]]; simpl; done.
Qed.

Lemma granted_S n σ :
  timeseries.granted (S n) σ ->
  head (timeseries.oom σ) <> Some true /\
  timeseries.granted n (timeseries.after_allocation σ) /\
  timeseries.granted n σ.
Proof.
  unfold timeseries.granted, timeseries.after_allocation.
  destruct σ as [objs [|b rest]]; simpl.
  - intros _. split; [done|]. split; destruct n; apply not_elem_of_nil.
  - rewrite not_elem_of_cons. intros [Hb Hrest]. split; [by intros [= ->]|].
    split; [done|]. destruct n as [|n]; simpl; [apply not_elem_of_nil|].
    rewrite not_elem_of_cons. split; [done|].
    intros Hin. apply Hrest. revert Hin. clear.
    revert n. induction rest as [|b' rest IH]; intros [|n]; simpl;
      rewrite ?elem_of_nil, ?elem_of_cons; try tauto.
    intros [->|Hin]; [by left|right; by apply IH].
Qed.

End Steps.

Section Container.
Context {T : Type} `{DataPoint T} `{StdLib T}.
#[local] Existing Instance timeseries.comp_bind.
Implicit Types (σ : timeseries.state T) (s : timeseries.TimeSeries T)
  (this : addr).

Lemma bind_returns {A B} (c : timeseries.comp T A)
    (k : A -> timeseries.comp T B) σ a σ' :
  c σ = (Returns a, σ') -> (c ≫= k) σ = k a σ'.
Proof.
  intros Hc. unfold mbind, timeseries.comp_bind, timeseries.bind.
  by rewrite Hc.
Qed.

Lemma bind_throws {A B} (c : timeseries.comp T A)
    (k : A -> timeseries.comp T B) σ e σ' :
  c σ = (Throws e, σ') -> (c ≫= k) σ = (Throws e, σ').
Proof.
  intros Hc. unfold mbind, timeseries.comp_bind, timeseries.bind.
  by rewrite Hc.
Qed.


Lemma store_members σ this s :
  timeseries.objects σ !! this = Some s ->
  timeseries.mkState
    (<[this := timeseries.mkTimeSeries (timeseries.values s)
                 (timeseries.timestamps s) (timeseries._data s)
                 (timeseries._meta s) (timeseries._isLoaded s)]>
       (timeseries.objects σ))
    (timeseries.oom σ) = σ.
Proof. intros Hs. rewrite <- (store_same σ this s Hs) at 3. by destruct s. Qed.

(** What [insert] of a pair does on a live series, case by case. *)
Lemma insert_run σ this s (val : StdMap.value_type T) :
  timeseries.objects σ !! this = Some s ->
  timeseries.insert this val σ =
    match StdMap.find val.1 (timeseries._data s) with
    | Some _ => (Returns false, σ)
    | None =>
        if decide (head (timeseries.oom σ) = Some true)
        then (Throws bad_alloc, timeseries.after_allocation σ)
        else (Returns true,
              timeseries.replaced (timeseries.after_allocation σ) this
                (timeseries.mkTimeSeries (timeseries.values s)
                   (timeseries.timestamps s)
                   (StdMap.place val.1 val.2 (timeseries._data s))
                   (timeseries._meta s) (timeseries._isLoaded s)))
    end.
Proof.
  intros Hs. unfold timeseries.insert.
  rewrite (bind_returns _ _ _ _ _ (get_data_live _ _ _ Hs)).
  unfold StdMap.insert.
  destruct (StdMap.find val.1 (timeseries._data s)) as [r|] eqn:Hf; simpl.
  - rewrite (bind_returns (timeseries.ret tt) _ σ tt σ eq_refl).
    rewrite (bind_returns _ _ _ _ _ (set_data_live _ _ _ _ Hs)).
    unfold timeseries.ret. f_equal. apply (store_members _ _ _ Hs).
  - destruct (decide (head (timeseries.oom σ) = Some true)) as [Hoom|Hoom].
    + by rewrite (bind_throws _ _ _ _ _ (allocate_node_refused _ Hoom)).
    + rewrite (bind_returns _ _ _ _ _ (allocate_node_granted _ Hoom)).
      assert (timeseries.objects (timeseries.after_allocation σ) !! this =
              Some s) as Hs' by done.
      by rewrite (bind_returns _ _ _ _ _ (set_data_live _ _ _ _ Hs')).
Qed.

(** The in-place overload differs only where the library constructs the
    node before it finds the key present. *)
Lemma insert_emplace_run σ this s (t : time_t) (v : T) :
  timeseries.objects σ !! this = Some s ->
  timeseries.insert_emplace this t v σ =
    match StdMap.find t (timeseries._data s) with
    | Some _ =>
        if emplace_constructs_first then
          if decide (head (timeseries.oom σ) = Some true)
          then (Throws bad_alloc, timeseries.after_allocation σ)
          else (Returns false, timeseries.after_allocation σ)
        else (Returns false, σ)
    | None => timeseries.insert this (t, v) σ
    end.
Proof.
  intros Hs. rewrite (insert_run _ _ _ (t, v) Hs).
  unfold timeseries.insert_emplace.
  rewrite (bind_returns _ _ _ _ _ (get_data_live _ _ _ Hs)).
  unfold StdMap.emplace, StdMap.insert. simpl.
  assert (timeseries.objects (timeseries.after_allocation σ) !! this =
          Some s) as Hs' by done.
  destruct (StdMap.find t (timeseries._data s)) as [r|] eqn:Hf; simpl.
  - destruct emplace_constructs_first; simpl.
    + destruct (decide (head (timeseries.oom σ) = Some true)) as [Hoom|Hoom].
      * by rewrite (bind_throws _ _ _ _ _ (allocate_node_refused _ Hoom)).
      * rewrite (bind_returns _ _ _ _ _ (allocate_node_granted _ Hoom)).
        rewrite (bind_returns _ _ _ _ _ (set_data_live _ _ _ _ Hs')).
        unfold timeseries.ret. f_equal. apply (store_members _ _ _ Hs').
    + rewrite (bind_returns (timeseries.ret tt) _ σ tt σ eq_refl).
      rewrite (bind_returns _ _ _ _ _ (set_data_live _ _ _ _ Hs)).
      unfold timeseries.ret. f_equal. apply (store_members _ _ _ Hs).
  - rewrite orb_true_r.
    destruct (decide (head (timeseries.oom σ) = Some true)) as [Hoom|Hoom].
    + by rewrite (bind_throws _ _ _ _ _ (allocate_node_refused _ Hoom)).
    + rewrite (bind_returns _ _ _ _ _ (allocate_node_granted _ Hoom)).
      by rewrite (bind_returns _ _ _ _ _ (set_data_live _ _ _ _ Hs')).
Qed.

(** C4, as the code has it.  [insert] on a live series adds the entry and
    returns [true] when the timestamp is new and the node can be allocated,
    and it returns [false] and changes nothing when the timestamp is
    already there; it never overwrites.  When the timestamp is new and the
    allocation of the node fails it throws [std::bad_alloc] and the series
    is as before.  The in-place overload does the same for a new timestamp;
    for one that is there it returns [false] when the next allocation is
    granted, and what it can throw is [std::bad_alloc] only, the series
    being as before. *)
Theorem insert_adds_or_reports σ this s (val : StdMap.value_type T) :
  timeseries.objects σ !! this = Some s ->
  (StdMap.find val.1 (timeseries._data s) = None ->
     (head (timeseries.oom σ) <> Some true ->
      exists s',
        timeseries.insert this val σ =
          (Returns true,
           timeseries.mkState (<[this := s']> (timeseries.objects σ))
             (tail (timeseries.oom σ))) /\
        StdMap.find val.1 (timeseries._data s') = Some val.2 /\
        (forall k, k <> val.1 ->
           StdMap.find k (timeseries._data s') =
           StdMap.find k (timeseries._data s)) /\
        StdMap.size (timeseries._data s') =
          S (StdMap.size (timeseries._data s)) /\
        timeseries._meta s' = timeseries._meta s /\
        timeseries._isLoaded s' = timeseries._isLoaded s) /\
     (head (timeseries.oom σ) = Some true ->
      timeseries.insert this val σ =
        (Throws bad_alloc,
         timeseries.mkState (timeseries.objects σ) (tail (timeseries.oom σ)))) /\
     timeseries.insert_emplace this val.1 val.2 σ =
       timeseries.insert this val σ) /\
  (forall r, StdMap.find val.1 (timeseries._data s) = Some r ->
     timeseries.insert this val σ = (Returns false, σ) /\
     (head (timeseries.oom σ) <> Some true ->
      exists σ',
        timeseries.insert_emplace this val.1 val.2 σ = (Returns false, σ') /\
        timeseries.objects σ' = timeseries.objects σ) /\
     (forall e σ',
        timeseries.insert_emplace this val.1 val.2 σ = (Throws e, σ') ->
        e = bad_alloc /\ timeseries.objects σ' = timeseries.objects σ)).
Proof.
  intros Hs. pose proof (insert_run σ this s val Hs) as Hrun.
  pose proof (insert_emplace_run σ this s val.1 val.2 Hs) as Hemp.
  split.
  - intros Hf. rewrite Hf in Hrun, Hemp. split; [|split].
    + intros Hoom. rewrite decide_False in Hrun by done.
      eexists. split; [exact Hrun|]. simpl.
      split; [by apply find_place_eq|].
      split; [intros k Hk; by apply find_place_ne|].
      split; [unfold StdMap.size; apply place_length|done].
    + intros Hoom. by rewrite decide_True in Hrun.
    + rewrite Hemp. by destruct val.
  - intros r Hf. rewrite Hf in Hrun, Hemp. split; [exact Hrun|]. split.
    + intros Hoom. rewrite decide_False in Hemp by done.
      destruct emplace_constructs_first; eexists; (split; [exact Hemp|done]).
    + intros e σ' Hthrow. rewrite Hemp in Hthrow.
      destruct emplace_constructs_first; [|done].
      destruct (decide (head (timeseries.oom σ) = Some true)); [|done].
      by injection Hthrow as <- <-.
Qed.

Lemma first_live σ this s :
  timeseries.objects σ !! this = Some s ->
  timeseries.first this σ =
    (match head (timeseries._data s) with
     | Some p => Returns (from_time_t p.1)
     | None => Undefined
     end, σ).
Proof.
  intros Hs. unfold timeseries.first.
  rewrite (bind_returns _ _ _ _ _ (get_data_live _ _ _ Hs)).
  unfold StdMap.begin. by destruct (timeseries._data s).
Qed.

Lemma size_live σ this s :
  timeseries.objects σ !! this = Some s ->
  timeseries.size this σ = (Returns (StdMap.size (timeseries._data s)), σ).
Proof.
  intros Hs. unfold timeseries.size.
  by rewrite (bind_returns _ _ _ _ _ (get_data_live _ _ _ Hs)).
Qed.

Lemma last_live σ this s :
  timeseries.objects σ !! this = Some s ->
  timeseries.last this σ =
    (match last (timeseries._data s) with
     | Some p => Returns (from_time_t p.1)
     | None => Undefined
     end, σ).
Proof.
  intros Hs. unfold timeseries.last.
  rewrite (bind_returns _ _ _ _ _ (size_live _ _ _ Hs)).
  rewrite (bind_returns _ _ _ _ _ (get_data_live _ _ _ Hs)).
  unfold StdMap.size, StdMap.begin, StdMap.rbegin.
  destruct (decide (length (timeseries._data s) = 0%nat)) as [Hn|Hn].
  - apply nil_length_inv in Hn. by rewrite Hn.
  - assert (StdMap.deref (reverse (timeseries._data s)) =
            match last (timeseries._data s) with
            | Some p => Returns p | None => Undefined end) as Hd
      by (by rewrite deref_head, head_reverse).
    unfold mbind, timeseries.comp_bind, timeseries.bind, timeseries.lift.
    rewrite Hd. by destruct (last (timeseries._data s)).
Qed.

(** C1, as the code has it.  On an empty series [first] and [last] raise
    no error: both read the entry at [begin()] unchecked, which is
    undefined.  On a non-empty series both return, [first() <= last()], and
    they are equal exactly when the size is 1. *)
Theorem first_last_bounds σ this s :
  timeseries.objects σ !! this = Some s ->
  StdMap.ok (timeseries._data s) ->
  (StdMap.size (timeseries._data s) = 0%nat ->
     timeseries.first this σ = (Undefined, σ) /\
     timeseries.last this σ = (Undefined, σ)) /\
  (StdMap.size (timeseries._data s) <> 0%nat ->
     exists a b,
       timeseries.first this σ = (Returns a, σ) /\
       timeseries.last this σ = (Returns b, σ) /\
       ptime_le a b /\
       (a = b <-> StdMap.size (timeseries._data s) = 1%nat)).
Proof.
  intros Hs Hok. rewrite (first_live _ _ _ Hs), (last_live _ _ _ Hs).
  unfold StdMap.size. split.
  - intros Hn. apply nil_length_inv in Hn. by rewrite Hn.
  - intros Hn.
    destruct (head (timeseries._data s)) as [p|] eqn:Hp;
      [|apply head_None in Hp; by rewrite Hp in Hn].
    destruct (last (timeseries._data s)) as [q|] eqn:Hq;
      [|apply last_None in Hq; by rewrite Hq in Hn].
    destruct (ok_first_last _ _ _ Hok Hp Hq) as [Hle Heq].
    exists (from_time_t p.1), (from_time_t q.1).
    split; [done|]. split; [done|]. split; [exact Hle|].
    rewrite <- Heq. unfold from_time_t. split; [by intros [=] | by intros ->].
Qed.

(** C8, as the code has it.  [operator[]] returns the record stored at a
    timestamp that is present and throws [std::out_of_range] at one that
    is absent; in neither case does it change the series. *)
Theorem lookup_present_or_absent σ this s (tm : time_t) :
  timeseries.objects σ !! this = Some s ->
  (forall r, StdMap.find tm (timeseries._data s) = Some r ->
     timeseries.operator_index this tm σ = (Returns r, σ)) /\
  (StdMap.find tm (timeseries._data s) = None ->
     timeseries.operator_index this tm σ = (Throws out_of_range, σ)).
Proof.
  intros Hs. split.
  - intros r Hf. unfold timeseries.operator_index.
    rewrite (bind_returns _ _ _ _ _ (get_data_live _ _ _ Hs)).
    unfold StdMap.at_. by rewrite Hf.
  - intros Hf. unfold timeseries.operator_index.
    rewrite (bind_returns _ _ _ _ _ (get_data_live _ _ _ Hs)).
    unfold StdMap.at_. by rewrite Hf.
Qed.

Lemma replaced_live σ this s' :
  timeseries.objects (timeseries.replaced σ this s') !! this = Some s'.
Proof. apply lookup_insert_eq. Qed.

Lemma replaced_twice σ this s1 s2 :
  timeseries.replaced (timeseries.replaced σ this s1) this s2 =
  timeseries.replaced σ this s2.
Proof. unfold timeseries.replaced. simpl. by rewrite insert_insert_eq. Qed.

Lemma insert_each_fresh (rows : list (StdMap.value_type T)) :
  forall σ this s,
    timeseries.objects σ !! this = Some s ->
    StdMap.ok (timeseries._data s) ->
    NoDup rows.*1 ->
    (forall k, k ∈ rows.*1 -> StdMap.find k (timeseries._data s) = None) ->
    timeseries.granted (length rows) σ ->
    exists s',
      timeseries.insert_each this rows σ =
        (Returns (replicate (length rows) true),
         timeseries.mkState (<[this := s']> (timeseries.objects σ))
           (drop (length rows) (timeseries.oom σ))) /\
      StdMap.ok (timeseries._data s') /\
      (timeseries._data s').*1 ≡ₚ rows.*1 ++ (timeseries._data s).*1 /\
      length (timeseries._data s') =
        (length rows + length (timeseries._data s))%nat.
Proof.
  induction rows as [|[t v] rows IH]; intros σ this s Hs Hok Hnd Hfresh Hmem.
  - exists s. simpl. unfold timeseries.ret. rewrite drop_0.
    by rewrite (store_same _ _ _ Hs).
  - simpl in Hnd. apply NoDup_cons in Hnd as [Hnotin Hnd].
    assert (StdMap.find t (timeseries._data s) = None) as Hf
      by (apply Hfresh; simpl; left).
    simpl in Hmem. apply granted_S in Hmem as (Hhead & Hmem & _).
    pose proof (insert_emplace_run σ this s t v Hs) as Hrun.
    rewrite Hf, (insert_run _ _ _ (t, v) Hs) in Hrun. simpl in Hrun.
    rewrite Hf, decide_False in Hrun by done.
    set (s1 := timeseries.mkTimeSeries (timeseries.values s)
                 (timeseries.timestamps s)
                 (StdMap.place t v (timeseries._data s))
                 (timeseries._meta s) (timeseries._isLoaded s)) in *.
    assert (timeseries._data s1 = StdMap.place t v (timeseries._data s))
      as Hd1 by done.
    destruct (IH (timeseries.replaced (timeseries.after_allocation σ) this s1)
                this s1) as (s' & Hrest & Hok' & Hperm & Hlen).
    + apply replaced_live.
    + rewrite Hd1. by apply place_ok.
    + done.
    + intros k Hk. rewrite Hd1, find_place_ne; [apply Hfresh; simpl; by right|].
      intros ->. done.
    + exact Hmem.
    + exists s'. split; [|split; [|split]].
      * cbn [timeseries.insert_each]. simpl.
        rewrite (bind_returns (timeseries.insert_emplace this t v) _ _ _ _ Hrun).
        rewrite (bind_returns _ _ _ _ _ Hrest).
        unfold timeseries.ret, timeseries.replaced. simpl.
        rewrite insert_insert_eq.
        destruct (timeseries.oom σ); simpl; by rewrite ?drop_nil.
      * done.
      * rewrite Hperm, Hd1, place_keys. simpl.
        by rewrite Permutation_middle.
      * rewrite Hlen, Hd1, place_length. simpl. lia.
Qed.

Lemma get_timestamps_live σ this s :
  timeseries.objects σ !! this = Some s ->
  timeseries.get_timestamps this σ = (Returns (timeseries._data s).*1, σ).
Proof.
  intros Hs. unfold timeseries.get_timestamps.
  rewrite (bind_returns _ _ _ _ _ (get_data_live _ _ _ Hs)).
  unfold timeseries.map_keys, StdMap.copy, StdMap.begin. simpl.
  pose proof (copy_from_all (V:=T) fst (timeseries._data s)) as Hc.
  unfold StdMap.end_ in *.
  unfold mbind, timeseries.comp_bind, timeseries.bind, timeseries.lift.
  by rewrite Hc.
Qed.

(** C5.  After inserting rows with pairwise different timestamps into an
    empty series, in whatever order and with memory for their nodes, every
    insertion was accepted, [get_timestamps] returns exactly those
    timestamps in strictly ascending order, and [size] is their number.
    The result is a vector returned by value: [get_timestamps] leaves the
    series as it was, and the vector is no part of the store that later
    operations change. *)
Theorem timestamps_sorted_snapshot σ this s (rows : list (StdMap.value_type T)) :
  timeseries.objects σ !! this = Some s ->
  timeseries._data s = StdMap.empty_map ->
  NoDup rows.*1 ->
  timeseries.granted (length rows) σ ->
  exists σ' ts,
    timeseries.insert_each this rows σ =
      (Returns (replicate (length rows) true), σ') /\
    timeseries.get_timestamps this σ' = (Returns ts, σ') /\
    ts ≡ₚ rows.*1 /\
    StronglySorted Z.lt ts /\
    timeseries.size this σ' = (Returns (length rows), σ').
Proof.
  intros Hs Hempty Hnd Hmem.
  destruct (insert_each_fresh rows σ this s Hs) as (s' & Hrun & Hok & Hperm & Hlen).
  - rewrite Hempty. constructor.
  - done.
  - intros k _. by rewrite Hempty.
  - done.
  - set (σ' := timeseries.mkState (<[this := s']> (timeseries.objects σ))
                 (drop (length rows) (timeseries.oom σ))) in *.
    assert (timeseries.objects σ' !! this = Some s') as Hs'
      by apply lookup_insert_eq.
    exists σ', (timeseries._data s').*1.
    rewrite Hempty in Hperm, Hlen. simpl in Hperm, Hlen.
    rewrite app_nil_r in Hperm.
    split; [done|]. split; [by apply get_timestamps_live|].
    split; [done|]. split; [exact Hok|].
    rewrite (size_live _ _ _ Hs').
    unfold StdMap.size. by rewrite Hlen, Nat.add_0_r.
Qed.

Lemma traverse_live σ this s :
  timeseries.objects σ !! this = Some s ->
  timeseries.traverse this σ = (Returns (timeseries._data s), σ).
Proof.
  intros Hs. unfold timeseries.traverse, timeseries.begin, timeseries.end_.
  rewrite (bind_returns _ _ _ _ _
             (bind_returns _ _ _ _ _ (get_data_live _ _ _ Hs))).
  rewrite (bind_returns _ _ _ _ _
             (bind_returns _ _ _ _ _ (get_data_live _ _ _ Hs))).
  unfold timeseries.ret, timeseries.lift, StdMap.begin. simpl.
  pose proof (copy_from_all (V:=T) (fun p => p) (timeseries._data s)) as Hc.
  unfold StdMap.end_ in *. rewrite list_fmap_id in Hc.
  change (StdMap.copy_from into_node (timeseries._data s) [] =
          Returns (timeseries._data s)) in Hc.
  by rewrite Hc.
Qed.

Lemma traverse_values_live σ this s :
  timeseries.state_ok σ ->
  timeseries.objects σ !! this = Some s ->
  timeseries.traverse_values this σ =
    (match timeseries._data s with [] => Returns [] | _ :: _ => Undefined end,
     σ).
Proof.
  intros Hwf Hs. destruct (Hwf _ _ Hs) as (Hv & Ht & Hok).
  unfold timeseries.traverse_values, timeseries.get_values.
  rewrite (bind_returns _ _ _ _ _
             (bind_returns _ _ _ _ _ (load_live _ _ _ Hs))).
  unfold timeseries.Values_begin, timeseries.Values_end,
    timeseries.begin, timeseries.end_. rewrite Hv.
  rewrite (bind_returns _ _ _ _ _
    (bind_returns _ _ _ _ _
       (bind_returns _ _ _ _ _ (get_data_live _ _ _ Hs)))).
  rewrite (bind_returns _ _ _ _ _
    (bind_returns _ _ _ _ _
       (bind_returns _ _ _ _ _ (get_data_live _ _ _ Hs)))).
  unfold timeseries.lift, StdMap.copy, timeseries.getDataPoint. simpl.
  by rewrite (copy_from_temporaries (V:=T) snd).
Qed.

Lemma traverse_timestamps_live σ this s :
  timeseries.state_ok σ ->
  timeseries.objects σ !! this = Some s ->
  timeseries.traverse_timestamps this σ =
    (match timeseries._data s with [] => Returns [] | _ :: _ => Undefined end,
     σ).
Proof.
  intros Hwf Hs. destruct (Hwf _ _ Hs) as (Hv & Ht & Hok).
  unfold timeseries.traverse_timestamps, timeseries.get_timestamps_member.
  rewrite (bind_returns _ _ _ _ _
             (bind_returns _ _ _ _ _ (load_live _ _ _ Hs))).
  unfold timeseries.TimeStamps_begin, timeseries.TimeStamps_end. rewrite Ht.
  rewrite (bind_returns _ _ _ _ _
    (bind_returns _ _ _ _ _ (get_data_live _ _ _ Hs))).
  rewrite (bind_returns _ _ _ _ _
    (bind_returns _ _ _ _ _ (get_data_live _ _ _ Hs))).
  unfold timeseries.lift, StdMap.copy, timeseries.getTimeStamp. simpl.
  by rewrite (copy_from_temporaries (V:=T) fst).
Qed.

(** C6, on the code.  The function objects of the two memberspaces return
    references into temporary pairs, so a traversal that reads what the
    iterators of a memberspace refer to is undefined as soon as the series
    has an entry; only for an empty series does it return, with nothing.
    Iterating the container itself does yield the [size()] entries in
    strictly ascending order of their timestamps. *)
Theorem views_read_temporaries σ this s :
  timeseries.state_ok σ ->
  timeseries.objects σ !! this = Some s ->
  (timeseries._data s = StdMap.empty_map ->
     timeseries.traverse_values this σ = (Returns [], σ) /\
     timeseries.traverse_timestamps this σ = (Returns [], σ)) /\
  (timeseries._data s <> StdMap.empty_map ->
     timeseries.traverse_values this σ = (Undefined, σ) /\
     timeseries.traverse_timestamps this σ = (Undefined, σ)) /\
  (exists ps,
     timeseries.traverse this σ = (Returns ps, σ) /\
     timeseries.size this σ = (Returns (length ps), σ) /\
     StronglySorted Z.lt ps.*1).
Proof.
  intros Hwf Hs. destruct (Hwf _ _ Hs) as (_ & _ & Hok).
  rewrite (traverse_values_live _ _ _ Hwf Hs),
    (traverse_timestamps_live _ _ _ Hwf Hs).
  unfold StdMap.empty_map. split; [|split].
  - by intros ->.
  - intros Hne. by destruct (timeseries._data s).
  - exists (timeseries._data s).
    split; [by apply traverse_live|]. split; [by apply size_live|exact Hok].
Qed.

(** *** Moves, copies and swaps *)

Lemma deep_copy_cases {A} (x : A) σ :
  exists rest,
    timeseries.deep_copy x σ =
      (Throws bad_alloc, timeseries.mkState (timeseries.objects σ) rest) \/
    timeseries.deep_copy x σ =
      (Returns x, timeseries.mkState (timeseries.objects σ) rest).
Proof.
  unfold timeseries.deep_copy. destruct σ as [objs [|[] rest]]; simpl.
  - exists []. by right.
  - exists rest. by left.
  - exists rest. by right.
Qed.

Lemma take_data_live σ this s :
  timeseries.objects σ !! this = Some s ->
  timeseries.take_data this σ =
    (Returns (timeseries._data s),
     timeseries.replaced σ this
       (timeseries.mkTimeSeries (timeseries.values s) (timeseries.timestamps s)
          StdMap.empty_map (timeseries._meta s) (timeseries._isLoaded s))).
Proof.
  intros Hs. unfold timeseries.take_data.
  rewrite (bind_returns _ _ _ _ _ (get_data_live _ _ _ Hs)).
  by rewrite (bind_returns _ _ _ _ _ (set_data_live _ _ _ _ Hs)).
Qed.

Lemma take_meta_live σ this s :
  timeseries.objects σ !! this = Some s ->
  timeseries.take_meta this σ =
    (Returns (timeseries._meta s),
     timeseries.replaced σ this
       (timeseries.mkTimeSeries (timeseries.values s) (timeseries.timestamps s)
          (timeseries._data s) (moved_from_string (timeseries._meta s))
          (timeseries._isLoaded s))).
Proof.
  intros Hs. unfold timeseries.take_meta.
  rewrite (bind_returns _ _ _ _ _ (get_meta_live _ _ _ Hs)).
  by rewrite (bind_returns _ _ _ _ _ (set_meta_member_live _ _ _ _ Hs)).
Qed.

Lemma construct_fresh σ this s :
  timeseries.objects σ !! this = None ->
  timeseries.construct this s σ = (Returns tt, timeseries.replaced σ this s).
Proof. intros Hn. unfold timeseries.construct. by rewrite Hn. Qed.

Lemma destroy_live σ this s :
  timeseries.objects σ !! this = Some s ->
  timeseries.destroy this σ =
    (Returns tt,
     timeseries.mkState (delete this (timeseries.objects σ)) (timeseries.oom σ)).
Proof.
  intros Hs. unfold timeseries.destroy.
  by rewrite (bind_returns _ _ _ _ _ (load_live _ _ _ Hs)).
Qed.

End Container.

(** Resolve a lookup in a store built from [replaced]. *)
Ltac live :=
  unfold timeseries.replaced; simpl;
  repeat first [ rewrite lookup_insert_eq
               | rewrite lookup_insert_ne by congruence
               | rewrite lookup_delete_ne by congruence ];
  first [ eassumption | reflexivity ].

(** Run the next member access of a computation on a live object. *)
Ltac step :=
  first
    [ erewrite (bind_returns (timeseries.get_data _))
        by (apply get_data_live; live)
    | erewrite (bind_returns (timeseries.get_meta _))
        by (apply get_meta_live; live)
    | erewrite (bind_returns (timeseries.get_isLoaded _))
        by (apply get_isLoaded_live; live)
    | erewrite (bind_returns (timeseries.set_data _ _))
        by (apply set_data_live; live)
    | erewrite (bind_returns (timeseries.set_meta_member _ _))
        by (apply set_meta_member_live; live)
    | erewrite (bind_returns (timeseries.set_isLoaded _ _))
        by (apply set_isLoaded_live; live)
    | erewrite (bind_returns (timeseries.take_data _))
        by (apply take_data_live; live)
    | erewrite (bind_returns (timeseries.take_meta _))
        by (apply take_meta_live; live)
    | erewrite (bind_returns (timeseries.construct _ _))
        by (apply construct_fresh; live)
    | erewrite (bind_returns (timeseries.destroy _))
        by (apply destroy_live; live)
    | erewrite set_data_live by live
    | erewrite set_meta_member_live by live
    | erewrite set_isLoaded_live by live ];
  simpl.

Section Assignment.
Context {T : Type} `{DataPoint T} `{StdLib T}.
#[local] Existing Instance timeseries.comp_bind.
Implicit Types (σ : timeseries.state T) (s : timeseries.TimeSeries T)
  (this : addr).

Lemma swap_distinct σ a b sa sb :
  a <> b ->
  timeseries.objects σ !! a = Some sa ->
  timeseries.objects σ !! b = Some sb ->
  exists σ',
    timeseries.swap a b σ = (Returns tt, σ') /\
    timeseries.objects σ' !! a =
      Some (timeseries.mkTimeSeries (timeseries.values sa)
              (timeseries.timestamps sa) (timeseries._data sb)
              (timeseries._meta sb) (timeseries._isLoaded sb)) /\
    timeseries.objects σ' !! b =
      Some (timeseries.mkTimeSeries (timeseries.values sb)
              (timeseries.timestamps sb) (timeseries._data sa)
              (timeseries._meta sa) (timeseries._isLoaded sa)) /\
    (forall c, c <> a -> c <> b ->
       timeseries.objects σ' !! c = timeseries.objects σ !! c) /\
    timeseries.oom σ' = timeseries.oom σ.
Proof.
  intros Hne Ha Hb. eexists. split.
  - unfold timeseries.swap. do 11 step. step. reflexivity.
  - simpl. split; [live|]. split; [live|]. split; [|done].
    intros c Hca Hcb. live.
Qed.

Lemma move_construct σ this ts s :
  timeseries.objects σ !! ts = Some s ->
  timeseries.objects σ !! this = None ->
  exists σ',
    timeseries.TimeSeries_move this ts σ = (Returns tt, σ') /\
    timeseries.objects σ' !! ts =
      Some (timeseries.mkTimeSeries (timeseries.values s)
              (timeseries.timestamps s) StdMap.empty_map
              (moved_from_string (timeseries._meta s)) false) /\
    timeseries.objects σ' !! this =
      Some (timeseries.mkTimeSeries (timeseries.mkValues this)
              (timeseries.mkTimeStamps this) (timeseries._data s)
              (timeseries._meta s) (timeseries._isLoaded s)) /\
    (forall c, c <> ts -> c <> this ->
       timeseries.objects σ' !! c = timeseries.objects σ !! c) /\
    timeseries.oom σ' = timeseries.oom σ.
Proof.
  intros Hs Hn. assert (this <> ts) as Hne by congruence.
  eexists. split.
  - unfold timeseries.TimeSeries_move. do 4 step. step. reflexivity.
  - simpl. split; [live|]. split; [live|]. split; [|done].
    intros c Hc1 Hc2. live.
Qed.

Lemma move_assign_distinct σ this rhs t r :
  this <> rhs ->
  timeseries.objects σ !! this = Some t ->
  timeseries.objects σ !! rhs = Some r ->
  exists σ',
    timeseries.operator_assign_move this rhs σ = (Returns this, σ') /\
    timeseries.objects σ' !! rhs =
      Some (timeseries.mkTimeSeries (timeseries.values r)
              (timeseries.timestamps r) StdMap.empty_map
              (moved_from_string (timeseries._meta r)) false) /\
    timeseries.objects σ' !! this =
      Some (timeseries.mkTimeSeries (timeseries.values t)
              (timeseries.timestamps t) (timeseries._data r)
              (timeseries._meta r) (timeseries._isLoaded r)) /\
    (forall c, c <> rhs -> c <> this ->
       timeseries.objects σ' !! c = timeseries.objects σ !! c) /\
    timeseries.oom σ' = timeseries.oom σ.
Proof.
  intros Hne Ht Hr. eexists. split.
  - unfold timeseries.operator_assign_move. rewrite decide_True by done.
    do 7 step. reflexivity.
  - simpl. split; [live|]. split; [live|]. split; [|done].
    intros c Hc1 Hc2. live.
Qed.

Lemma move_assign_self σ this :
  timeseries.operator_assign_move this this σ = (Returns this, σ).
Proof.
  unfold timeseries.operator_assign_move. by rewrite decide_False by auto.
Qed.

Lemma isEmpty_live σ this s :
  timeseries.objects σ !! this = Some s ->
  timeseries.isEmpty this σ = (Returns (StdMap.empty (timeseries._data s)), σ).
Proof. intros Hs. unfold timeseries.isEmpty. by step. Qed.

(** C7.  Moving from a series, by move construction or by move assignment
    to another object, leaves the source with an empty map ([isEmpty]
    answers [true]) and [isLoaded] false, and the destination with the
    map, label and flag that the source had.  (Move assignment of an
    object to itself, where source and destination are one, is skipped by
    the guard and changes nothing.) *)
Theorem move_empties_source σ this ts s :
  timeseries.objects σ !! ts = Some s ->
  this <> ts ->
  (timeseries.objects σ !! this = None ->
     exists σ' dst,
       timeseries.TimeSeries_move this ts σ = (Returns tt, σ') /\
       timeseries.isEmpty ts σ' = (Returns true, σ') /\
       timeseries.isLoaded ts σ' = (Returns false, σ') /\
       timeseries.objects σ' !! this = Some dst /\
       timeseries.content dst = timeseries.content s) /\
  (forall t, timeseries.objects σ !! this = Some t ->
     exists σ' dst,
       timeseries.operator_assign_move this ts σ = (Returns this, σ') /\
       timeseries.isEmpty ts σ' = (Returns true, σ') /\
       timeseries.isLoaded ts σ' = (Returns false, σ') /\
       timeseries.objects σ' !! this = Some dst /\
       timeseries.content dst = timeseries.content s) /\
  timeseries.operator_assign_move ts ts σ = (Returns ts, σ).
Proof.
  intros Hs Hne. split; [|split].
  - intros Hn.
    destruct (move_construct σ this ts s Hs Hn) as (σ' & Hrun & Hsrc & Hdst & _).
    exists σ'. eexists. split; [exact Hrun|].
    rewrite (isEmpty_live _ _ _ Hsrc). unfold timeseries.isLoaded.
    rewrite (get_isLoaded_live _ _ _ Hsrc). simpl.
    split; [done|]. split; [done|]. split; [exact Hdst|done].
  - intros t Ht.
    destruct (move_assign_distinct σ this ts t s Hne Ht Hs)
      as (σ' & Hrun & Hsrc & Hdst & _).
    exists σ'. eexists. split; [exact Hrun|].
    rewrite (isEmpty_live _ _ _ Hsrc). unfold timeseries.isLoaded.
    rewrite (get_isLoaded_live _ _ _ Hsrc). simpl.
    split; [done|]. split; [done|]. split; [exact Hdst|done].
  - apply move_assign_self.
Qed.

Lemma copy_construct σ this ts s :
  timeseries.objects σ !! ts = Some s ->
  timeseries.objects σ !! this = None ->
  (exists σ',
     timeseries.TimeSeries_copy this ts σ = (Returns tt, σ') /\
     timeseries.objects σ' =
       <[this := timeseries.mkTimeSeries (timeseries.mkValues this)
                   (timeseries.mkTimeStamps this) (timeseries._data s)
                   (timeseries._meta s) (timeseries._isLoaded s)]>
         (timeseries.objects σ)) \/
  (exists σ',
     timeseries.TimeSeries_copy this ts σ = (Throws bad_alloc, σ') /\
     timeseries.objects σ' = timeseries.objects σ).
Proof.
  intros Hs Hn. unfold timeseries.TimeSeries_copy. step.
  destruct (deep_copy_cases (timeseries._data s) σ) as [rest1 [Hd|Hd]].
  { right. eexists. by rewrite (bind_throws _ _ _ _ _ Hd). }
  rewrite (bind_returns _ _ _ _ _ Hd). step.
  destruct (deep_copy_cases (timeseries._meta s)
              (timeseries.mkState (timeseries.objects σ) rest1))
    as [rest2 [Hm|Hm]].
  { right. eexists. by rewrite (bind_throws _ _ _ _ _ Hm). }
  rewrite (bind_returns _ _ _ _ _ Hm). step.
  left. eexists. by rewrite construct_fresh by done.
Qed.

Lemma temporary_fresh σ :
  timeseries.objects σ !! fresh (dom (timeseries.objects σ)) = None.
Proof. apply not_elem_of_dom, is_fresh. Qed.

(** [assign]: the strong guarantee of copy-then-swap. *)
Lemma assign_strong σ this a arg t r :
  arg = timeseries.lvalue a \/ arg = timeseries.rvalue a ->
  timeseries.objects σ !! this = Some t ->
  timeseries.objects σ !! a = Some r ->
  (exists σ' t',
     timeseries.assign this arg σ = (Returns this, σ') /\
     timeseries.objects σ' !! this = Some t' /\
     timeseries.content t' = timeseries.content r) \/
  (exists σ',
     timeseries.assign this arg σ = (Throws bad_alloc, σ') /\
     timeseries.objects σ' = timeseries.objects σ).
Proof.
  intros Harg Ht Hr. unfold timeseries.assign.
  rewrite (bind_returns timeseries.temporary _ σ _ σ eq_refl).
  pose proof (temporary_fresh σ) as Hfresh.
  set (tmp := fresh (dom (timeseries.objects σ))) in *.
  assert (tmp <> this) as Hne1 by congruence.
  assert (tmp <> a) as Hne2 by congruence.
  destruct Harg as [-> | ->].
  - destruct (copy_construct σ tmp a r Hr Hfresh)
      as [(σ1 & Hc & Hobj) | (σ1 & Hc & Hobj)].
    + left. rewrite (bind_returns _ _ _ _ _ Hc).
      assert (timeseries.objects σ1 !! this = Some t) as Ht1
        by (rewrite Hobj; live).
      assert (timeseries.objects σ1 !! tmp = Some
                (timeseries.mkTimeSeries (timeseries.mkValues tmp)
                   (timeseries.mkTimeStamps tmp) (timeseries._data r)
                   (timeseries._meta r) (timeseries._isLoaded r))) as Htmp
        by (rewrite Hobj; live).
      destruct (swap_distinct σ1 this tmp _ _ (not_eq_sym Hne1) Ht1 Htmp)
        as (σ2 & Hsw & Hthis & Htmp2 & _).
      rewrite (bind_returns _ _ _ _ _ Hsw).
      rewrite (bind_returns _ _ _ _ _ (destroy_live _ _ _ Htmp2)).
      eexists _, _. split; [reflexivity|]. split; [live|done].
    + right. rewrite (bind_throws _ _ _ _ _ Hc). by exists σ1.
  - left.
    destruct (move_construct σ tmp a r Hr Hfresh)
      as (σ1 & Hc & Hsrc & Htmp & Hothers & _).
    rewrite (bind_returns _ _ _ _ _ Hc).
    assert (exists t1, timeseries.objects σ1 !! this = Some t1) as [t1 Ht1].
    { destruct (decide (this = a)) as [->|Hne]; [by eexists|].
      exists t. rewrite Hothers by done. exact Ht. }
    destruct (swap_distinct σ1 this tmp _ _ (not_eq_sym Hne1) Ht1 Htmp)
      as (σ2 & Hsw & Hthis & Htmp2 & _).
    rewrite (bind_returns _ _ _ _ _ Hsw).
    rewrite (bind_returns _ _ _ _ _ (destroy_live _ _ _ Htmp2)).
    eexists _, _. split; [reflexivity|]. split; [live|done].
Qed.

(** Move assignment cannot fail. *)
Lemma move_assign_replaces σ this rhs t r :
  timeseries.objects σ !! this = Some t ->
  timeseries.objects σ !! rhs = Some r ->
  exists σ' t',
    timeseries.operator_assign_move this rhs σ = (Returns this, σ') /\
    timeseries.objects σ' !! this = Some t' /\
    timeseries.content t' = timeseries.content r.
Proof.
  intros Ht Hr. destruct (decide (this = rhs)) as [->|Hne].
  - exists σ, t. rewrite move_assign_self. split; [done|]. split; [done|].
    congruence.
  - destruct (move_assign_distinct σ this rhs t r Hne Ht Hr)
      as (σ' & Hrun & _ & Hdst & _).
    by eexists σ', _.
Qed.

Lemma copy_assign_data_run σ a s (d : StdMap.t T) :
  timeseries.objects σ !! a = Some s ->
  timeseries.copy_assign_data a d σ =
    match timeseries.oom σ with
    | true :: rest =>
        (Throws bad_alloc,
         timeseries.mkState
           (<[a := timeseries.mkTimeSeries (timeseries.values s)
                     (timeseries.timestamps s)
                     (map_assign_residue (timeseries._data s) d)
                     (timeseries._meta s) (timeseries._isLoaded s)]>
              (timeseries.objects σ)) rest)
    | faults =>
        (Returns tt,
         timeseries.mkState
           (<[a := timeseries.mkTimeSeries (timeseries.values s)
                     (timeseries.timestamps s) d
                     (timeseries._meta s) (timeseries._isLoaded s)]>
              (timeseries.objects σ)) (tail faults))
    end.
Proof.
  intros Hs. unfold timeseries.copy_assign_data. step.
  unfold mbind, timeseries.comp_bind, timeseries.bind, timeseries.on_throw,
    timeseries.deep_copy.
  destruct σ as [objs [|[] rest]]; simpl in *;
    by erewrite set_data_live by live.
Qed.

Lemma copy_assign_meta_run σ a s (m : string) :
  timeseries.objects σ !! a = Some s ->
  timeseries.copy_assign_meta a m σ =
    match timeseries.oom σ with
    | true :: rest =>
        (Throws bad_alloc, timeseries.mkState (timeseries.objects σ) rest)
    | faults =>
        (Returns tt,
         timeseries.mkState
           (<[a := timeseries.mkTimeSeries (timeseries.values s)
                     (timeseries.timestamps s) (timeseries._data s) m
                     (timeseries._isLoaded s)]>
              (timeseries.objects σ)) (tail faults))
    end.
Proof.
  intros Hs. unfold timeseries.copy_assign_meta.
  rewrite (bind_returns _ _ _ _ _ (load_live _ _ _ Hs)).
  unfold mbind, timeseries.comp_bind, timeseries.bind, timeseries.deep_copy.
  destruct σ as [objs [|[] rest]]; simpl in *; try done;
    by erewrite set_meta_member_live by live.
Qed.

Lemma copy_assign_data_cases σ a s (d : StdMap.t T) :
  timeseries.objects σ !! a = Some s ->
  exists rest,
    timeseries.copy_assign_data a d σ =
      (Throws bad_alloc,
       timeseries.mkState
         (<[a := timeseries.mkTimeSeries (timeseries.values s)
                   (timeseries.timestamps s)
                   (map_assign_residue (timeseries._data s) d)
                   (timeseries._meta s) (timeseries._isLoaded s)]>
            (timeseries.objects σ)) rest) \/
    timeseries.copy_assign_data a d σ =
      (Returns tt,
       timeseries.mkState
         (<[a := timeseries.mkTimeSeries (timeseries.values s)
                   (timeseries.timestamps s) d
                   (timeseries._meta s) (timeseries._isLoaded s)]>
            (timeseries.objects σ)) rest).
Proof.
  intros Hs. rewrite (copy_assign_data_run _ _ _ _ Hs).
  destruct (timeseries.oom σ) as [|[] rest]; eauto.
Qed.

Lemma copy_assign_meta_cases σ a s (m : string) :
  timeseries.objects σ !! a = Some s ->
  exists rest,
    timeseries.copy_assign_meta a m σ =
      (Throws bad_alloc, timeseries.mkState (timeseries.objects σ) rest) \/
    timeseries.copy_assign_meta a m σ =
      (Returns tt,
       timeseries.mkState
         (<[a := timeseries.mkTimeSeries (timeseries.values s)
                   (timeseries.timestamps s) (timeseries._data s) m
                   (timeseries._isLoaded s)]>
            (timeseries.objects σ)) rest).
Proof.
  intros Hs. rewrite (copy_assign_meta_run _ _ _ _ Hs).
  destruct (timeseries.oom σ) as [|[] rest]; eauto.
Qed.

(** Copy assignment: what it gives when it returns. *)
Lemma copy_assign_basic σ this rhs t r :
  timeseries.objects σ !! this = Some t ->
  timeseries.objects σ !! rhs = Some r ->
  (exists σ' t',
     timeseries.operator_assign_copy this rhs σ = (Returns this, σ') /\
     timeseries.objects σ' !! this = Some t' /\
     timeseries.content t' = timeseries.content r) \/
  (exists σ',
     timeseries.operator_assign_copy this rhs σ = (Throws bad_alloc, σ')).
Proof.
  intros Ht Hr. unfold timeseries.operator_assign_copy.
  destruct (decide (this <> rhs)) as [Hne|Heq].
  2:{ left. exists σ, t. apply dec_stable in Heq as ->.
      split; [done|]. split; [done|]. congruence. }
  step.
  destruct (copy_assign_data_cases σ this t (timeseries._data r) Ht)
    as [rest1 [Hd|Hd]].
  { right. eexists. by rewrite (bind_throws _ _ _ _ _ Hd). }
  rewrite (bind_returns _ _ _ _ _ Hd). step.
  set (t1 := timeseries.mkTimeSeries (timeseries.values t)
               (timeseries.timestamps t) (timeseries._data r)
               (timeseries._meta t) (timeseries._isLoaded t)) in *.
  set (σ1 := timeseries.mkState (<[this := t1]> (timeseries.objects σ)) rest1)
    in *.
  assert (timeseries.objects σ1 !! this = Some t1) as Ht1 by live.
  destruct (copy_assign_meta_cases σ1 this t1 (timeseries._meta r) Ht1)
    as [rest2 [Hm|Hm]].
  { right. eexists. by rewrite (bind_throws _ _ _ _ _ Hm). }
  rewrite (bind_returns _ _ _ _ _ Hm). simpl. do 2 step.
  left. eexists _, _. split; [reflexivity|]. split; [live|done].
Qed.

Lemma copy_assign_no_fault σ this rhs t r :
  timeseries.objects σ !! this = Some t ->
  timeseries.objects σ !! rhs = Some r ->
  timeseries.oom σ = [] ->
  exists σ', timeseries.operator_assign_copy this rhs σ = (Returns this, σ').
Proof.
  intros Ht Hr Hoom. unfold timeseries.operator_assign_copy.
  destruct (decide (this <> rhs)) as [Hne|Heq]; [|by eexists].
  step.
  erewrite (bind_returns (timeseries.copy_assign_data _ _));
    [|rewrite (copy_assign_data_run _ _ _ _ Ht), Hoom; reflexivity].
  simpl. step.
  erewrite (bind_returns (timeseries.copy_assign_meta _ _));
    [|erewrite copy_assign_meta_run by live; reflexivity].
  simpl. do 2 step. by eexists.
Qed.

(** C2, as the code has it.  [assign] (copy, then swap) either returns
    with the target's map, label and flag replaced by the source's, or
    throws leaving every object as it was.  Move assignment always returns
    with the target so replaced.  The copy assignment [operator=] replaces
    the three members when it returns, and it returns when no copy runs
    out of memory; when a copy fails it throws, and nothing is promised
    about the target. *)
Theorem assignment_guarantees σ this rhs t r :
  timeseries.objects σ !! this = Some t ->
  timeseries.objects σ !! rhs = Some r ->
  (forall arg,
     arg = timeseries.lvalue rhs \/ arg = timeseries.rvalue rhs ->
     (exists σ' t',
        timeseries.assign this arg σ = (Returns this, σ') /\
        timeseries.objects σ' !! this = Some t' /\
        timeseries.content t' = timeseries.content r) \/
     (exists σ',
        timeseries.assign this arg σ = (Throws bad_alloc, σ') /\
        timeseries.objects σ' = timeseries.objects σ)) /\
  (exists σ' t',
     timeseries.operator_assign_move this rhs σ = (Returns this, σ') /\
     timeseries.objects σ' !! this = Some t' /\
     timeseries.content t' = timeseries.content r) /\
  ((exists σ' t',
      timeseries.operator_assign_copy this rhs σ = (Returns this, σ') /\
      timeseries.objects σ' !! this = Some t' /\
      timeseries.content t' = timeseries.content r) \/
   (exists σ',
      timeseries.operator_assign_copy this rhs σ = (Throws bad_alloc, σ'))) /\
  (timeseries.oom σ = [] ->
   exists σ', timeseries.operator_assign_copy this rhs σ = (Returns this, σ')).
Proof.
  intros Ht Hr. split; [|split; [|split]].
  - intros arg Harg. by eapply assign_strong.
  - by eapply move_assign_replaces.
  - by eapply copy_assign_basic.
  - by eapply copy_assign_no_fault.
Qed.

End Assignment.

(** ** Well-formedness is an invariant of the operations *)

Section Invariant.
Context {T : Type} `{DataPoint T} `{StdLib T}.
#[local] Existing Instance timeseries.comp_bind.
Implicit Types (σ : timeseries.state T) (s : timeseries.TimeSeries T)
  (this : addr).

Lemma keeps_ret {A} (a : A) (Q : A -> Prop) :
  Q a -> timeseries.keeps (T:=T) (timeseries.ret a) Q.
Proof. intros HQ σ Hok. split; [done|]. by intros ? [= <-]. Qed.

Lemma keeps_bind {A B} (c : timeseries.comp T A)
    (k : A -> timeseries.comp T B) (Q : A -> Prop) (R : B -> Prop) :
  timeseries.keeps c Q ->
  (forall a, Q a -> timeseries.keeps (k a) R) ->
  timeseries.keeps (c ≫= k) R.
Proof.
  intros Hc Hk σ Hok. destruct (Hc σ Hok) as [Hok' HQ].
  unfold mbind, timeseries.comp_bind, timeseries.bind.
  destruct (c σ) as [[a|e|] σ']; simpl in *; [|by split..].
  apply Hk; auto.
Qed.


Lemma keeps_load this :
  timeseries.keeps (T:=T) (timeseries.load this) (timeseries.object_ok this).
Proof.
  intros σ Hok. unfold timeseries.load.
  destruct (timeseries.objects σ !! this) as [s|] eqn:Hs; simpl;
    split; try done.
  intros ? [= <-]. by apply Hok.
Qed.

Lemma keeps_store this s :
  timeseries.object_ok this s ->
  timeseries.keeps (timeseries.store this s) (fun _ => True).
Proof.
  intros Hs σ Hok. split; [|done]. intros a s'. simpl.
  destruct (decide (a = this)) as [->|Hne].
  - rewrite lookup_insert_eq. by intros [= <-].
  - rewrite lookup_insert_ne by done. apply Hok.
Qed.

Lemma keeps_release this :
  timeseries.keeps (T:=T) (timeseries.release this) (fun _ => True).
Proof.
  intros σ Hok. split; [|done]. intros a s'. simpl.
  intros [_ Hs]%lookup_delete_Some. by apply Hok.
Qed.

Lemma keeps_deep_copy {A} (x : A) :
  timeseries.keeps (T:=T) (timeseries.deep_copy x) (fun y => y = x).
Proof.
  intros σ Hok. unfold timeseries.deep_copy.
  destruct (timeseries.oom σ) as [|[] rest]; simpl; split;
    try done; by intros ? [= <-].
Qed.

Lemma keeps_temporary :
  timeseries.keeps (T:=T) timeseries.temporary (fun _ => True).
Proof. by intros σ Hok. Qed.

Lemma keeps_construct this s :
  timeseries.object_ok this s ->
  timeseries.keeps (timeseries.construct this s) (fun _ => True).
Proof.
  intros Hs σ Hok. unfold timeseries.construct.
  destruct (timeseries.objects σ !! this); [by split|].
  by apply keeps_store.
Qed.

Lemma keeps_on_throw {A} (c : timeseries.comp T A) leftover (Q : A -> Prop) :
  timeseries.keeps c Q ->
  timeseries.keeps leftover (fun _ => True) ->
  timeseries.keeps (timeseries.on_throw c leftover) Q.
Proof.
  intros Hc Hl σ Hok. destruct (Hc σ Hok) as [Hok' HQ].
  unfold timeseries.on_throw.
  destruct (c σ) as [[a|e|] σ']; simpl in *; [by split| |by split].
  destruct (Hl σ' Hok') as [Hok'' _].
  by destruct (leftover σ') as [[?|?|] σ'']; simpl in *.
Qed.

Lemma keeps_get_data this :
  timeseries.keeps (T:=T) (timeseries.get_data this) StdMap.ok.
Proof.
  eapply keeps_bind; [apply keeps_load|]. intros s (_ & _ & Hd).
  by apply keeps_ret.
Qed.

Lemma keeps_get_meta this :
  timeseries.keeps (T:=T) (timeseries.get_meta this) (fun _ => True).
Proof.
  eapply keeps_bind; [apply keeps_load|]. intros s _. by apply keeps_ret.
Qed.

Lemma keeps_get_isLoaded this :
  timeseries.keeps (T:=T) (timeseries.get_isLoaded this) (fun _ => True).
Proof.
  eapply keeps_bind; [apply keeps_load|]. intros s _. by apply keeps_ret.
Qed.

Lemma keeps_set_data this (d : StdMap.t T) :
  StdMap.ok d ->
  timeseries.keeps (timeseries.set_data this d) (fun _ => True).
Proof.
  intros Hd. eapply keeps_bind; [apply keeps_load|].
  intros s (Hv & Ht & _). by apply keeps_store.
Qed.

Lemma keeps_set_meta_member this (m : string) :
  timeseries.keeps (T:=T) (timeseries.set_meta_member this m) (fun _ => True).
Proof.
  eapply keeps_bind; [apply keeps_load|].
  intros s (Hv & Ht & Hd). by apply keeps_store.
Qed.

Lemma keeps_set_isLoaded this (b : bool) :
  timeseries.keeps (T:=T) (timeseries.set_isLoaded this b) (fun _ => True).
Proof.
  eapply keeps_bind; [apply keeps_load|].
  intros s (Hv & Ht & Hd). by apply keeps_store.
Qed.

Lemma keeps_take_data this :
  timeseries.keeps (T:=T) (timeseries.take_data this) StdMap.ok.
Proof.
  eapply keeps_bind; [apply keeps_get_data|]. intros d Hd.
  eapply keeps_bind; [apply keeps_set_data; constructor|]. intros _ _.
  by apply keeps_ret.
Qed.

Lemma keeps_take_meta this :
  timeseries.keeps (T:=T) (timeseries.take_meta this) (fun _ => True).
Proof.
  eapply keeps_bind; [apply keeps_get_meta|]. intros m _.
  eapply keeps_bind; [apply keeps_set_meta_member|]. intros _ _.
  by apply keeps_ret.
Qed.

Lemma keeps_copy_assign_data this (d : StdMap.t T) :
  StdMap.ok d ->
  timeseries.keeps (timeseries.copy_assign_data this d) (fun _ => True).
Proof.
  intros Hd. eapply keeps_bind; [apply keeps_get_data|]. intros old Hold.
  eapply keeps_bind.
  - apply keeps_on_throw; [apply keeps_deep_copy|].
    apply keeps_set_data. by apply map_assign_residue_ok.
  - intros d' ->. by apply keeps_set_data.
Qed.

Lemma keeps_copy_assign_meta this (m : string) :
  timeseries.keeps (T:=T) (timeseries.copy_assign_meta this m) (fun _ => True).
Proof.
  eapply keeps_bind; [apply keeps_load|]. intros _ _.
  eapply keeps_bind; [apply keeps_deep_copy|]. intros m' _.
  apply keeps_set_meta_member.
Qed.

Lemma keeps_destroy this :
  timeseries.keeps (T:=T) (timeseries.destroy this) (fun _ => True).
Proof.
  eapply keeps_bind; [apply keeps_load|]. intros _ _. apply keeps_release.
Qed.

End Invariant.

(** Split a sequence of member accesses along its binds. *)
Ltac keeps_seq :=
  repeat
    first
      [ apply keeps_ret; done
      | apply keeps_set_isLoaded
      | apply keeps_set_meta_member
      | apply keeps_set_data; done
      | apply keeps_copy_assign_meta
      | apply keeps_copy_assign_data; done
      | apply keeps_destroy
      | apply keeps_construct; done
      | eapply keeps_bind;
          [ first [ apply keeps_get_data | apply keeps_get_meta
                  | apply keeps_get_isLoaded | apply keeps_take_data
                  | apply keeps_take_meta | apply keeps_deep_copy
                  | apply keeps_temporary | apply keeps_set_isLoaded
                  | apply keeps_set_meta_member
                  | apply keeps_copy_assign_meta | apply keeps_destroy
                  | apply keeps_set_data; done
                  | apply keeps_copy_assign_data; done
                  | apply keeps_construct; done ]
          | intros ? ?; simpl in *; subst ] ].

Section Operations.
Context {T : Type} `{DataPoint T} `{StdLib T}.
#[local] Existing Instance timeseries.comp_bind.
Implicit Types (this : addr).

Lemma keeps_default this meta :
  timeseries.keeps (T:=T) (timeseries.TimeSeries_default this meta)
    (fun _ => True).
Proof.
  unfold timeseries.TimeSeries_default. keeps_seq.
  apply keeps_construct. repeat split. constructor.
Qed.

Lemma keeps_copy this ts :
  timeseries.keeps (T:=T) (timeseries.TimeSeries_copy this ts) (fun _ => True).
Proof.
  unfold timeseries.TimeSeries_copy. keeps_seq.
Qed.

Lemma keeps_move this ts :
  timeseries.keeps (T:=T) (timeseries.TimeSeries_move this ts) (fun _ => True).
Proof.
  unfold timeseries.TimeSeries_move. keeps_seq.
Qed.

Lemma keeps_swap ts1 ts2 :
  timeseries.keeps (T:=T) (timeseries.swap ts1 ts2) (fun _ => True).
Proof. unfold timeseries.swap. keeps_seq. Qed.

Lemma keeps_allocation (b : bool) :
  timeseries.keeps (T:=T)
    (if b then timeseries.allocate_node else timeseries.ret tt)
    (fun _ => True).
Proof.
  destruct b; [|by apply keeps_ret].
  intros σ Hok. destruct (keeps_deep_copy tt σ Hok) as [Hok' _]. by split.
Qed.

Lemma keeps_insert this (val : StdMap.value_type T) :
  timeseries.keeps (timeseries.insert this val) (fun _ => True).
Proof.
  unfold timeseries.insert. keeps_seq.
  eapply keeps_bind; [apply keeps_allocation|]. intros _ _.
  eapply keeps_bind; [apply keeps_set_data; by apply insert_ok|].
  intros _ _. by apply keeps_ret.
Qed.

Lemma keeps_insert_emplace this (t : time_t) (mval : T) :
  timeseries.keeps (timeseries.insert_emplace this t mval) (fun _ => True).
Proof.
  unfold timeseries.insert_emplace. keeps_seq.
  eapply keeps_bind; [apply keeps_allocation|]. intros _ _.
  eapply keeps_bind; [apply keeps_set_data; by apply insert_ok|].
  intros _ _. by apply keeps_ret.
Qed.

Lemma keeps_clear this :
  timeseries.keeps (T:=T) (timeseries.clear this) (fun _ => True).
Proof.
  unfold timeseries.clear. keeps_seq. apply keeps_set_data. constructor.
Qed.

(** Every constructor, assignment and mutator of the class takes
    well-formed stores to well-formed stores, also when it throws. *)
Theorem operations_keep_well_formed this other meta arg
    (val : StdMap.value_type T) :
  timeseries.keeps (T:=T) (timeseries.TimeSeries_default this meta)
    (fun _ => True) /\
  timeseries.keeps (T:=T) (timeseries.TimeSeries_copy this other)
    (fun _ => True) /\
  timeseries.keeps (T:=T) (timeseries.TimeSeries_move this other)
    (fun _ => True) /\
  timeseries.keeps (T:=T) (timeseries.swap this other) (fun _ => True) /\
  timeseries.keeps (T:=T) (timeseries.assign this arg) (fun _ => True) /\
  timeseries.keeps (T:=T) (timeseries.operator_assign_copy this other)
    (fun _ => True) /\
  timeseries.keeps (T:=T) (timeseries.operator_assign_move this other)
    (fun _ => True) /\
  timeseries.keeps (timeseries.insert this val) (fun _ => True) /\
  timeseries.keeps (timeseries.insert_emplace this val.1 val.2)
    (fun _ => True) /\
  timeseries.keeps (T:=T) (timeseries.clear this) (fun _ => True) /\
  timeseries.keeps (T:=T) (timeseries.set_meta this meta) (fun _ => True).
Proof.
  repeat apply conj.
  - apply keeps_default.
  - apply keeps_copy.
  - apply keeps_move.
  - apply keeps_swap.
  - unfold timeseries.assign.
    eapply keeps_bind; [apply keeps_temporary|]. intros tmp _.
    eapply keeps_bind;
      [destruct arg; [apply keeps_copy | apply keeps_move]|].
    intros _ _. eapply keeps_bind; [apply keeps_swap|]. intros _ _.
    keeps_seq.
  - unfold timeseries.operator_assign_copy.
    destruct (decide (this <> other)); keeps_seq.
  - unfold timeseries.operator_assign_move.
    destruct (decide (this <> other)); keeps_seq.
  - apply keeps_insert.
  - apply keeps_insert_emplace.
  - apply keeps_clear.
  - apply keeps_copy_assign_meta.
Qed.

End Operations.

(** ** Records and schemas *)

Section Records.
Context {double : Type} (int_of_double : double -> Z).

(** The error the vector constructors raise is the one whose message
    reports the failed vector initialisation. *)
Example vector_initialization_message :
  (1000, "Vector initialization failed. Index out of range.") ∈ messages.
Proof. left. Qed.

(** C9.  Built from a positional vector, each schema throws
    [DataPointException(1000)] (vector initialisation failed, index out of
    range) when the vector is shorter than its number of fields: 4 for
    OHLC, 5 for OHLCV, 2 for BidAsk.  With enough values the fields are the
    values at the fixed positions: open, high, low, close (and volume,
    converted to int) or bid, ask. *)
Theorem positional_construction (init : list double) :
  ((length init < 4)%nat ->
     OHLC_of_vector init = Throws (DataPointException 1000)) /\
  ((4 <= length init)%nat ->
     exists o h l c,
       init !! 0%nat = Some o /\ init !! 1%nat = Some h /\
       init !! 2%nat = Some l /\ init !! 3%nat = Some c /\
       OHLC_of_vector init = Returns (mkOHLC o h l c)) /\
  ((length init < 5)%nat ->
     OHLCV_of_vector int_of_double init = Throws (DataPointException 1000)) /\
  ((5 <= length init)%nat ->
     exists o h l c v,
       init !! 0%nat = Some o /\ init !! 1%nat = Some h /\
       init !! 2%nat = Some l /\ init !! 3%nat = Some c /\
       init !! 4%nat = Some v /\
       OHLCV_of_vector int_of_double init =
         Returns (mkOHLCV (int_of_double v) o h l c)) /\
  ((length init < 2)%nat ->
     BidAsk_of_vector init = Throws (DataPointException 1000)) /\
  ((2 <= length init)%nat ->
     exists b a,
       init !! 0%nat = Some b /\ init !! 1%nat = Some a /\
       BidAsk_of_vector init = Returns (mkBidAsk b a)).
Proof.
  destruct init as [|x0 [|x1 [|x2 [|x3 [|x4 rest]]]]]; simpl;
    repeat apply conj; intros Hlen; try lia; try reflexivity;
    repeat eexists.
Qed.

End Records.

(** C10.  A type derived from [DataPoint] that is none of OHLC, OHLCV and
    BidAsk selects the primary [dp_names] template: its field-name list,
    and so [column_names] of a series of it, is the one-element list
    holding the empty string.  Such a type instantiates the container like
    the three schemas do. *)
Theorem other_types_have_blank_names (T : Type) `{DataPoint T} `{StdLib T}
    (σ : timeseries.state T) (this : addr) (s : timeseries.TimeSeries T) :
  schema_of T <> schema_OHLC ->
  schema_of T <> schema_OHLCV ->
  schema_of T <> schema_BidAsk ->
  timeseries.objects σ !! this = Some s ->
  dp_names (schema_of T) = [EmptyString] /\
  timeseries.column_names this σ = (Returns [EmptyString], σ).
Proof.
  intros H1 H2 H3 Hs.
  assert (dp_names (schema_of T) = [EmptyString]) as Hn
    by (by destruct (schema_of T)).
  split; [exact Hn|]. unfold timeseries.column_names.
  rewrite (bind_returns _ _ _ _ _ (load_live _ _ _ Hs)). by rewrite Hn.
Qed.

(** C3, as the code has it.  The only [frequency] that returns is a stub:
    for every series, with however many entries, it returns the default
    duration of zero seconds, does not look at the timestamps, never
    throws and leaves the series unchanged. *)
Theorem frequency_is_a_stub (double : Type) (this : Archive.TimeSeries double) :
  Archive.frequency this = (Returns time_duration_default, this) /\
  total_seconds time_duration_default = 0.
Proof. split; reflexivity. Qed.

(** ** The properties on concrete series *)

Lemma singleton_state_ok {T : Type} (a : addr) (d : StdMap.t T) m l faults :
  StdMap.ok d -> timeseries.state_ok (state_of [ (a, series_of a d m l) ] faults).
Proof.
  intros Hd b s. unfold state_of. simpl.
  intros [[<- <-]|[_ Hs]]%lookup_insert_Some; [by repeat split|].
  by rewrite lookup_empty in Hs.
Qed.

(** C1: on an empty series neither [first] nor [last] throws. *)
Lemma first_last_empty_throw_nothing :
  (timeseries.first 1 empty_series_state).1 = Undefined /\
  (timeseries.last 1 empty_series_state).1 = Undefined /\
  ~ throws (timeseries.first 1 empty_series_state).1 /\
  ~ throws (timeseries.last 1 empty_series_state).1.
Proof.
  assert ((timeseries.first 1 empty_series_state).1 = Undefined) as Hf
    by (vm_compute; reflexivity).
  assert ((timeseries.last 1 empty_series_state).1 = Undefined) as Hl
    by (vm_compute; reflexivity).
  repeat split; try done.
  - rewrite Hf. by intros [e ?].
  - rewrite Hl. by intros [e ?].
Qed.

Lemma first_last_bounds_witness :
  exists a b,
    timeseries.first 1 three_bar_state = (Returns a, three_bar_state) /\
    timeseries.last 1 three_bar_state = (Returns b, three_bar_state) /\
    ptime_le a b /\
    (a = b <-> StdMap.size three_bars = 1%nat).
Proof.
  apply (first_last_bounds three_bar_state 1%positive
           (series_of 1 three_bars "ts1" true)).
  - reflexivity.
  - unfold StdMap.ok. simpl. repeat constructor.
  - simpl. lia.
Defined.

(** C2: the series at 1 is assigned the series at 2 with [operator=]; the
    copy of the map succeeds and the copy of the label runs out of memory.
    The exception leaves the target with the new map next to its old label
    and flag: neither its old state nor the source's. *)
Lemma copy_assignment_partial_update :
  exists σ' t',
    timeseries.operator_assign_copy 1 2 (two_series_state [false; true]) =
      (Throws bad_alloc, σ') /\
    timeseries.objects σ' !! 1%positive = Some t' /\
    timeseries.content t' = (three_bars, "ts1", false) /\
    timeseries.content t' <>
      timeseries.content (series_of 1 one_bar "ts1" false) /\
    timeseries.content t' <>
      timeseries.content (series_of 2 three_bars label true).
Proof.
  eexists _, _. split; [vm_compute; reflexivity|].
  split; [vm_compute; reflexivity|].
  split; [reflexivity|]. split; intros [=].
Qed.

Lemma assignment_guarantees_witness :
  exists σ' t',
    timeseries.operator_assign_move 1 2 (two_series_state []) =
      (Returns 1%positive, σ') /\
    timeseries.objects σ' !! 1%positive = Some t' /\
    timeseries.content t' =
      timeseries.content (series_of 2 three_bars label true).
Proof.
  destruct (assignment_guarantees (two_series_state []) 1 2
              (series_of 1 one_bar "ts1" false)
              (series_of 2 three_bars label true))
    as (_ & Hmove & _).
  - reflexivity.
  - reflexivity.
  - exact Hmove.
Defined.

(** C3: on timestamps 100, 160, 220 the stub does not return 60 seconds,
    and neither on a single entry nor on a series just constructed does it
    fail. *)
Lemma frequency_ignores_timestamps :
  (Archive.frequency archive_three).1 <> Returns (mktime_duration 60) /\
  ~ throws (Archive.frequency archive_one).1 /\
  ~ throws (Archive.frequency (Archive.TimeSeries_ctor (double:=Z) "ts")).1.
Proof.
  split; [|split].
  - intros [=].
  - intros [e [=]].
  - intros [e [=]].
Qed.

(** C4: a series was constructed while memory lasted; the insertion of its
    first entry cannot allocate the node and ends in [std::bad_alloc],
    leaving the series empty. *)
Lemma insert_out_of_memory :
  exists σ',
    timeseries.insert 1 (100, bar 10 12 9 11) exhausted_state =
      (Throws bad_alloc, σ') /\
    throws (timeseries.insert 1 (100, bar 10 12 9 11) exhausted_state).1 /\
    timeseries.isEmpty 1 σ' = (Returns true, σ').
Proof.
  eexists. split; [vm_compute; reflexivity|].
  split; [by exists bad_alloc|]. vm_compute. reflexivity.
Qed.

Lemma insert_adds_or_reports_witness :
  (exists s',
     timeseries.insert 1 (160, bar 11 13 10 12) populated_state =
       (Returns true,
        timeseries.mkState
          (<[1%positive := s']> (timeseries.objects populated_state))
          (tail (timeseries.oom populated_state))) /\
     StdMap.find 160 (timeseries._data s') = Some (bar 11 13 10 12) /\
     StdMap.find 100 (timeseries._data s') = Some (bar 10 12 9 11) /\
     StdMap.size (timeseries._data s') = 2%nat) /\
  timeseries.insert 1 (100, bar 1 2 0 1) populated_state =
    (Returns false, populated_state).
Proof.
  split.
  - destruct (insert_adds_or_reports populated_state 1%positive
                (series_of 1 one_bar "ts1" false) (160, bar 11 13 10 12)
                eq_refl) as [Hnew _].
    destruct (Hnew eq_refl) as [Hgranted _].
    destruct Hgranted as (s' & Hrun & Hfind & Hothers & Hsize & _);
      [vm_compute; discriminate|].
    exists s'. split; [exact Hrun|]. split; [exact Hfind|].
    split; [|exact Hsize]. rewrite Hothers; [reflexivity|discriminate].
  - apply (insert_adds_or_reports populated_state 1%positive
             (series_of 1 one_bar "ts1" false) (100, bar 1 2 0 1)
             eq_refl) with (r := bar 10 12 9 11).
    reflexivity.
Defined.

Lemma timestamps_sorted_snapshot_witness :
  exists σ' ts,
    timeseries.insert_each 1
      [ (220, bar 12 15 11 14); (100, bar 10 12 9 11); (160, bar 11 13 10 12) ]
      empty_series_state =
      (Returns [true; true; true], σ') /\
    timeseries.get_timestamps 1 σ' = (Returns ts, σ') /\
    ts ≡ₚ [220; 100; 160] /\
    StronglySorted Z.lt ts /\
    timeseries.size 1 σ' = (Returns 3%nat, σ').
Proof.
  apply (timestamps_sorted_snapshot empty_series_state 1%positive
           (series_of 1 [] "ts1" false)
           [ (220, bar 12 15 11 14); (100, bar 10 12 9 11);
             (160, bar 11 13 10 12) ]).
  - reflexivity.
  - reflexivity.
  - simpl. apply (bool_decide_unpack _). vm_compute. reflexivity.
  - unfold timeseries.granted. apply (bool_decide_unpack _). vm_compute.
    reflexivity.
Defined.

(** C6: a series was constructed and given one bar; reading its two
    memberspaces from [begin()] to [end()] is undefined, where one record
    and one timestamp were to come. *)
Lemma views_read_temporaries_witness :
  timeseries.traverse_values 1 populated_state = (Undefined, populated_state) /\
  timeseries.traverse_timestamps 1 populated_state =
    (Undefined, populated_state) /\
  timeseries.size 1 populated_state = (Returns 1%nat, populated_state).
Proof.
  destruct (views_read_temporaries populated_state 1%positive
              (series_of 1 one_bar "ts1" false))
    as (_ & Hentries & _).
  - change (timeseries.state_ok
              (state_of [ (1%positive, series_of 1 one_bar "ts1" false) ] [])).
    apply singleton_state_ok. unfold StdMap.ok. simpl. repeat constructor.
  - reflexivity.
  - destruct Hentries as [Hvalues Htimestamps]; [discriminate|].
    split; [exact Hvalues|]. split; [exact Htimestamps|reflexivity].
Defined.

Lemma move_empties_source_witness :
  exists σ' dst,
    timeseries.operator_assign_move 1 2 (two_series_state []) =
      (Returns 1%positive, σ') /\
    timeseries.isEmpty 2 σ' = (Returns true, σ') /\
    timeseries.isLoaded 2 σ' = (Returns false, σ') /\
    timeseries.objects σ' !! 1%positive = Some dst /\
    timeseries.content dst =
      timeseries.content (series_of 2 three_bars label true).
Proof.
  destruct (move_empties_source (two_series_state []) 1 2
              (series_of 2 three_bars label true))
    as (_ & Hassign & _).
  - reflexivity.
  - discriminate.
  - apply (Hassign (series_of 1 one_bar "ts1" false)). reflexivity.
Defined.

(** C8: [operator[]] at a timestamp that is absent ends in an error. *)
Lemma index_absent_throws :
  timeseries.operator_index 1 130 three_bar_state =
    (Throws out_of_range, three_bar_state) /\
  throws (timeseries.operator_index 1 130 three_bar_state).1.
Proof. split; [reflexivity|]. by exists out_of_range. Qed.

Lemma lookup_present_or_absent_witness :
  timeseries.operator_index 1 160 three_bar_state =
    (Returns (bar 11 13 10 12), three_bar_state).
Proof.
  apply (lookup_present_or_absent three_bar_state 1%positive
           (series_of 1 three_bars "ts1" true) 160 eq_refl).
  reflexivity.
Defined.

Lemma positional_construction_witness :
  OHLC_of_vector [10; 12; 9] = Throws (DataPointException 1000) /\
  exists o h l c v,
    [10; 12; 9; 11; 500] !! 0%nat = Some o /\
    [10; 12; 9; 11; 500] !! 1%nat = Some h /\
    [10; 12; 9; 11; 500] !! 2%nat = Some l /\
    [10; 12; 9; 11; 500] !! 3%nat = Some c /\
    [10; 12; 9; 11; 500] !! 4%nat = Some v /\
    OHLCV_of_vector (fun x : Z => x) [10; 12; 9; 11; 500] =
      Returns (mkOHLCV v o h l c).
Proof.
  split.
  - apply (positional_construction (fun x : Z => x) [10; 12; 9]). simpl. lia.
  - apply (positional_construction (fun x : Z => x) [10; 12; 9; 11; 500]).
    simpl. lia.
Defined.

Lemma other_types_have_blank_names_witness :
  dp_names (schema_of Trade) = [EmptyString] /\
  timeseries.column_names 1 trade_state = (Returns [EmptyString], trade_state).
Proof.
  apply (other_types_have_blank_names Trade trade_state 1%positive
           (series_of 1 [ (100, mkTrade 5 1) ] "trades" false));
    first [ discriminate | reflexivity ].
Defined.

(** ** What holds of every object in every reachable store *)

Section Maintains.
Context {T : Type} `{DataPoint T} `{StdLib T}.
#[local] Existing Instance timeseries.comp_bind.
Context (P : addr -> timeseries.TimeSeries T -> Prop).
Implicit Types (this : addr) (s : timeseries.TimeSeries T).

Lemma maintains_ret {A} (a : A) (Q : A -> Prop) :
  Q a -> timeseries.maintains P (timeseries.ret a) Q.
Proof. intros HQ σ Hall. split; [done|]. by intros ? [= <-]. Qed.

Lemma maintains_bind {A B} (c : timeseries.comp T A)
    (k : A -> timeseries.comp T B) (Q : A -> Prop) (R : B -> Prop) :
  timeseries.maintains P c Q ->
  (forall a, Q a -> timeseries.maintains P (k a) R) ->
  timeseries.maintains P (c ≫= k) R.
Proof.
  intros Hc Hk σ Hall. destruct (Hc σ Hall) as [Hall' HQ].
  unfold mbind, timeseries.comp_bind, timeseries.bind.
  destruct (c σ) as [[a|e|] σ']; simpl in *; [|by split..].
  apply Hk; auto.
Qed.

Lemma maintains_load this :
  timeseries.maintains P (timeseries.load this) (P this).
Proof.
  intros σ Hall. unfold timeseries.load.
  destruct (timeseries.objects σ !! this) as [s|] eqn:Hs; simpl;
    split; try done.
  intros ? [= <-]. by apply Hall.
Qed.

Lemma maintains_store this s :
  P this s -> timeseries.maintains P (timeseries.store this s) (fun _ => True).
Proof.
  intros Hs σ Hall. split; [|done]. intros a s'. simpl.
  destruct (decide (a = this)) as [->|Hne].
  - rewrite lookup_insert_eq. by intros [= <-].
  - rewrite lookup_insert_ne by done. apply Hall.
Qed.

Lemma maintains_release this :
  timeseries.maintains P (timeseries.release this) (fun _ => True).
Proof.
  intros σ Hall. split; [|done]. intros a s'. simpl.
  intros [_ Hs]%lookup_delete_Some. by apply Hall.
Qed.

Lemma maintains_deep_copy {A} (x : A) :
  timeseries.maintains P (timeseries.deep_copy x) (fun y => y = x).
Proof.
  intros σ Hall. unfold timeseries.deep_copy.
  destruct (timeseries.oom σ) as [|[] rest]; simpl; split;
    try done; by intros ? [= <-].
Qed.

Lemma maintains_temporary :
  timeseries.maintains P timeseries.temporary (fun _ => True).
Proof. by intros σ Hall. Qed.

Lemma maintains_construct this s :
  P this s ->
  timeseries.maintains P (timeseries.construct this s) (fun _ => True).
Proof.
  intros Hs σ Hall. unfold timeseries.construct.
  destruct (timeseries.objects σ !! this); [by split|].
  by apply maintains_store.
Qed.

Lemma maintains_on_throw {A} (c : timeseries.comp T A) leftover
    (Q : A -> Prop) :
  timeseries.maintains P c Q ->
  timeseries.maintains P leftover (fun _ => True) ->
  timeseries.maintains P (timeseries.on_throw c leftover) Q.
Proof.
  intros Hc Hl σ Hall. destruct (Hc σ Hall) as [Hall' HQ].
  unfold timeseries.on_throw.
  destruct (c σ) as [[a|e|] σ']; simpl in *; [by split| |by split].
  destruct (Hl σ' Hall') as [Hall'' _].
  by destruct (leftover σ') as [[?|?|] σ'']; simpl in *.
Qed.

End Maintains.

Section NeverLoaded.
Context {T : Type} `{DataPoint T} `{StdLib T}.
#[local] Existing Instance timeseries.comp_bind.
Implicit Types (this : addr).

Lemma unloaded_get_data this :
  timeseries.maintains timeseries.not_loaded (timeseries.get_data (T:=T) this)
    (fun _ => True).
Proof.
  eapply maintains_bind; [apply maintains_load|]. intros s _.
  by apply maintains_ret.
Qed.

Lemma unloaded_get_meta this :
  timeseries.maintains timeseries.not_loaded (timeseries.get_meta (T:=T) this)
    (fun _ => True).
Proof.
  eapply maintains_bind; [apply maintains_load|]. intros s _.
  by apply maintains_ret.
Qed.

Lemma unloaded_get_isLoaded this :
  timeseries.maintains timeseries.not_loaded
    (timeseries.get_isLoaded (T:=T) this) (fun l => l = false).
Proof.
  eapply maintains_bind; [apply maintains_load|]. intros s Hs.
  by apply maintains_ret.
Qed.

Lemma unloaded_set_data this (d : StdMap.t T) :
  timeseries.maintains timeseries.not_loaded (timeseries.set_data this d)
    (fun _ => True).
Proof.
  eapply maintains_bind; [apply maintains_load|]. intros s Hs.
  by apply maintains_store.
Qed.

Lemma unloaded_set_meta_member this (m : string) :
  timeseries.maintains timeseries.not_loaded
    (timeseries.set_meta_member (T:=T) this m) (fun _ => True).
Proof.
  eapply maintains_bind; [apply maintains_load|]. intros s Hs.
  by apply maintains_store.
Qed.

Lemma unloaded_set_isLoaded this :
  timeseries.maintains timeseries.not_loaded
    (timeseries.set_isLoaded (T:=T) this false) (fun _ => True).
Proof.
  eapply maintains_bind; [apply maintains_load|]. intros s Hs.
  by apply maintains_store.
Qed.

Lemma unloaded_take_data this :
  timeseries.maintains timeseries.not_loaded (timeseries.take_data (T:=T) this)
    (fun _ => True).
Proof.
  eapply maintains_bind; [apply unloaded_get_data|]. intros d _.
  eapply maintains_bind; [apply unloaded_set_data|]. intros _ _.
  by apply maintains_ret.
Qed.

Lemma unloaded_take_meta this :
  timeseries.maintains timeseries.not_loaded (timeseries.take_meta (T:=T) this)
    (fun _ => True).
Proof.
  eapply maintains_bind; [apply unloaded_get_meta|]. intros m _.
  eapply maintains_bind; [apply unloaded_set_meta_member|]. intros _ _.
  by apply maintains_ret.
Qed.

Lemma unloaded_copy_assign_data this (d : StdMap.t T) :
  timeseries.maintains timeseries.not_loaded
    (timeseries.copy_assign_data this d) (fun _ => True).
Proof.
  eapply maintains_bind; [apply unloaded_get_data|]. intros old _.
  eapply maintains_bind.
  - apply maintains_on_throw; [apply maintains_deep_copy|].
    apply unloaded_set_data.
  - intros d' _. apply unloaded_set_data.
Qed.

Lemma unloaded_copy_assign_meta this (m : string) :
  timeseries.maintains timeseries.not_loaded
    (timeseries.copy_assign_meta (T:=T) this m) (fun _ => True).
Proof.
  eapply maintains_bind; [apply maintains_load|]. intros _ _.
  eapply maintains_bind; [apply maintains_deep_copy|]. intros m' _.
  apply unloaded_set_meta_member.
Qed.

Lemma unloaded_destroy this :
  timeseries.maintains timeseries.not_loaded (timeseries.destroy (T:=T) this)
    (fun _ => True).
Proof.
  eapply maintains_bind; [apply maintains_load|]. intros _ _.
  apply maintains_release.
Qed.

End NeverLoaded.

(** Split a sequence of member accesses along its binds, the flag read
    from an object being known to be false. *)
Ltac unloaded_seq :=
  repeat
    first
      [ apply maintains_ret; done
      | apply unloaded_set_isLoaded
      | apply unloaded_set_meta_member
      | apply unloaded_set_data
      | apply unloaded_copy_assign_meta
      | apply unloaded_copy_assign_data
      | apply unloaded_destroy
      | apply maintains_construct; done
      | eapply maintains_bind;
          [ first [ apply unloaded_get_data | apply unloaded_get_meta
                  | apply unloaded_get_isLoaded | apply unloaded_take_data
                  | apply unloaded_take_meta | apply maintains_deep_copy
                  | apply maintains_temporary | apply unloaded_set_isLoaded
                  | apply unloaded_set_meta_member
                  | apply unloaded_copy_assign_meta | apply unloaded_destroy
                  | apply unloaded_set_data
                  | apply unloaded_copy_assign_data
                  | apply maintains_construct; done ]
          | intros ? ?; simpl in *; subst ] ].

Section Reachable.
Context {T : Type} `{DataPoint T} `{StdLib T}.
#[local] Existing Instance timeseries.comp_bind.
Implicit Types (this : addr) (σ : timeseries.state T).

Lemma keeps_assign this arg :
  timeseries.keeps (T:=T) (timeseries.assign this arg) (fun _ => True).
Proof.
  unfold timeseries.assign.
  eapply keeps_bind; [apply keeps_temporary|]. intros tmp _.
  eapply keeps_bind; [destruct arg; [apply keeps_copy | apply keeps_move]|].
  intros _ _. eapply keeps_bind; [apply keeps_swap|]. intros _ _.
  keeps_seq.
Qed.

Lemma keeps_assign_copy this rhs :
  timeseries.keeps (T:=T) (timeseries.operator_assign_copy this rhs)
    (fun _ => True).
Proof.
  unfold timeseries.operator_assign_copy.
  destruct (decide (this <> rhs)); keeps_seq.
Qed.

Lemma keeps_assign_move this rhs :
  timeseries.keeps (T:=T) (timeseries.operator_assign_move this rhs)
    (fun _ => True).
Proof.
  unfold timeseries.operator_assign_move.
  destruct (decide (this <> rhs)); keeps_seq.
Qed.

Lemma assign_mapped_keys (k : time_t) (v : T) (d : StdMap.t T) :
  (StdMap.assign_mapped k v d).*1 = d.*1.
Proof.
  unfold StdMap.assign_mapped. rewrite <- list_fmap_compose.
  apply list_fmap_ext. intros i p _. simpl. by destruct (decide (p.1 = k)).
Qed.

Lemma assign_mapped_ok (k : time_t) (v : T) (d : StdMap.t T) :
  StdMap.ok d -> StdMap.ok (StdMap.assign_mapped k v d).
Proof. unfold StdMap.ok. by rewrite assign_mapped_keys. Qed.

Lemma keeps_write_index this (k : time_t) (v : T) :
  timeseries.keeps (timeseries.write_index this k v) (fun _ => True).
Proof.
  unfold timeseries.write_index.
  eapply keeps_bind; [apply keeps_get_data|]. intros d Hd.
  eapply keeps_bind with (Q := fun _ => True).
  - intros σ Hok. by split.
  - intros _ _. by apply keeps_set_data, assign_mapped_ok.
Qed.

Lemma keeps_write_nth this (i : nat) (v : T) :
  timeseries.keeps (timeseries.write_nth this i v) (fun _ => True).
Proof.
  unfold timeseries.write_nth.
  eapply keeps_bind; [apply keeps_get_data|]. intros d Hd.
  destruct (d !! i) as [p|].
  - by apply keeps_set_data, assign_mapped_ok.
  - intros σ Hok. by split.
Qed.

Lemma unloaded_write_nth this (i : nat) (v : T) :
  timeseries.maintains timeseries.not_loaded (timeseries.write_nth this i v)
    (fun _ => True).
Proof.
  unfold timeseries.write_nth.
  eapply maintains_bind; [apply unloaded_get_data|]. intros d _.
  destruct (d !! i) as [p|].
  - apply unloaded_set_data.
  - intros σ Hall. by split.
Qed.

Lemma run_keeps (c : timeseries.call T) :
  timeseries.keeps (timeseries.run c) (fun _ => True).
Proof.
  destruct c; simpl.
  - apply keeps_default.
  - apply keeps_copy.
  - apply keeps_move.
  - apply keeps_destroy.
  - eapply keeps_bind; [apply keeps_assign|]. intros _ _. by apply keeps_ret.
  - eapply keeps_bind; [apply keeps_assign_copy|]. intros _ _.
    by apply keeps_ret.
  - eapply keeps_bind; [apply keeps_assign_move|]. intros _ _.
    by apply keeps_ret.
  - apply keeps_swap.
  - eapply keeps_bind; [apply keeps_insert|]. intros _ _. by apply keeps_ret.
  - eapply keeps_bind; [apply keeps_insert_emplace|]. intros _ _.
    by apply keeps_ret.
  - apply keeps_clear.
  - apply keeps_copy_assign_meta.
  - apply keeps_write_index.
  - apply keeps_write_nth.
Qed.

Lemma unloaded_default this meta :
  timeseries.maintains timeseries.not_loaded
    (timeseries.TimeSeries_default (T:=T) this meta) (fun _ => True).
Proof. unfold timeseries.TimeSeries_default. unloaded_seq. Qed.

Lemma unloaded_copy this ts :
  timeseries.maintains timeseries.not_loaded
    (timeseries.TimeSeries_copy (T:=T) this ts) (fun _ => True).
Proof. unfold timeseries.TimeSeries_copy. unloaded_seq. Qed.

Lemma unloaded_move this ts :
  timeseries.maintains timeseries.not_loaded
    (timeseries.TimeSeries_move (T:=T) this ts) (fun _ => True).
Proof. unfold timeseries.TimeSeries_move. unloaded_seq. Qed.

Lemma unloaded_swap ts1 ts2 :
  timeseries.maintains timeseries.not_loaded
    (timeseries.swap (T:=T) ts1 ts2) (fun _ => True).
Proof. unfold timeseries.swap. unloaded_seq. Qed.

Lemma unloaded_allocation (b : bool) :
  timeseries.maintains (T:=T) timeseries.not_loaded
    (if b then timeseries.allocate_node else timeseries.ret tt)
    (fun _ => True).
Proof.
  destruct b; [|by apply maintains_ret].
  intros σ Hall.
  destruct (maintains_deep_copy timeseries.not_loaded tt σ Hall) as [Hall' _].
  by split.
Qed.

Lemma unloaded_insert this (val : StdMap.value_type T) :
  timeseries.maintains timeseries.not_loaded (timeseries.insert this val)
    (fun _ => True).
Proof.
  unfold timeseries.insert. unloaded_seq.
  eapply maintains_bind; [apply unloaded_allocation|]. intros _ _.
  unloaded_seq.
Qed.

Lemma unloaded_insert_emplace this (t : time_t) (mval : T) :
  timeseries.maintains timeseries.not_loaded
    (timeseries.insert_emplace this t mval) (fun _ => True).
Proof.
  unfold timeseries.insert_emplace. unloaded_seq.
  eapply maintains_bind; [apply unloaded_allocation|]. intros _ _.
  unloaded_seq.
Qed.

Lemma run_unloaded (c : timeseries.call T) :
  timeseries.maintains timeseries.not_loaded (timeseries.run c)
    (fun _ => True).
Proof.
  destruct c; simpl.
  - apply unloaded_default.
  - apply unloaded_copy.
  - apply unloaded_move.
  - apply unloaded_destroy.
  - apply maintains_bind with (Q := fun _ => True);
      [|intros _ _; by apply maintains_ret].
    unfold timeseries.assign.
    eapply maintains_bind; [apply maintains_temporary|]. intros tmp _.
    eapply maintains_bind;
      [destruct arg; [apply unloaded_copy | apply unloaded_move]|].
    intros _ _. eapply maintains_bind; [apply unloaded_swap|]. intros _ _.
    unloaded_seq.
  - apply maintains_bind with (Q := fun _ => True);
      [|intros _ _; by apply maintains_ret].
    unfold timeseries.operator_assign_copy.
    destruct (decide (this <> rhs)); unloaded_seq.
  - apply maintains_bind with (Q := fun _ => True);
      [|intros _ _; by apply maintains_ret].
    unfold timeseries.operator_assign_move.
    destruct (decide (this <> rhs)); unloaded_seq.
  - apply unloaded_swap.
  - eapply maintains_bind; [apply unloaded_insert|]. intros _ _.
    by apply maintains_ret.
  - eapply maintains_bind; [apply unloaded_insert_emplace|].
    intros _ _. by apply maintains_ret.
  - unfold timeseries.clear. unloaded_seq.
  - apply unloaded_copy_assign_meta.
  - unfold timeseries.write_index.
    eapply maintains_bind; [apply unloaded_get_data|]. intros d _.
    eapply maintains_bind with (Q := fun _ => True).
    + intros σ Hall. by split.
    + intros _ _. apply unloaded_set_data.
  - apply unloaded_write_nth.
Qed.

(** X1.  In every store that a program can reach from the empty one
    through the constructors, the destructor, the assignments, [swap], the
    mutators and writes to records in place, returning or throwing, each
    series has its two memberspaces bound to itself and its map in strictly
    ascending key order. *)
Theorem reachable_stores_well_formed σ :
  timeseries.reachable σ -> timeseries.state_ok σ.
Proof.
  induction 1 as [faults|σ c _ IH _].
  - intros a s. simpl. by rewrite lookup_empty.
  - by apply run_keeps.
Qed.

(** X2.  No operation of the class sets the load flag: in every reachable
    store [isLoaded] answers [false] for every live series. *)
Theorem loaded_flag_never_set σ this :
  timeseries.reachable σ ->
  forall b, (timeseries.isLoaded this σ).1 = Returns b -> b = false.
Proof.
  intros Hreach.
  assert (timeseries.all_objects timeseries.not_loaded σ) as Hall.
  { induction Hreach as [faults|σ c _ IH _].
    - intros a s. simpl. by rewrite lookup_empty.
    - by apply run_unloaded. }
  intros b. by apply (unloaded_get_isLoaded this σ Hall).
Qed.

End Reachable.

(** ** Copies, swaps and the other mutators *)

Section Mutators.
Context {T : Type} `{DataPoint T} `{StdLib T}.
#[local] Existing Instance timeseries.comp_bind.
Implicit Types (σ : timeseries.state T) (s : timeseries.TimeSeries T)
  (this : addr).

Lemma state_ext σ1 σ2 :
  timeseries.objects σ1 = timeseries.objects σ2 ->
  timeseries.oom σ1 = timeseries.oom σ2 ->
  σ1 = σ2.
Proof. destruct σ1, σ2. simpl. by intros -> ->. Qed.

Lemma record_eta s :
  timeseries.mkTimeSeries (timeseries.values s) (timeseries.timestamps s)
    (timeseries._data s) (timeseries._meta s) (timeseries._isLoaded s) = s.
Proof. by destruct s. Qed.

Lemma insert_frame σ this s (val : StdMap.value_type T) a :
  timeseries.objects σ !! this = Some s ->
  a <> this ->
  timeseries.objects (timeseries.insert this val σ).2 !! a =
  timeseries.objects σ !! a.
Proof.
  intros Hs Hne. rewrite (insert_run _ _ _ _ Hs).
  destruct (StdMap.find val.1 (timeseries._data s)); [done|].
  destruct (decide (head (timeseries.oom σ) = Some true)); [done|].
  simpl. by rewrite lookup_insert_ne.
Qed.

Lemma clear_live σ this s :
  timeseries.objects σ !! this = Some s ->
  timeseries.clear this σ =
    (Returns tt,
     timeseries.replaced σ this
       (timeseries.mkTimeSeries (timeseries.values s) (timeseries.timestamps s)
          [] (timeseries._meta s) (timeseries._isLoaded s))).
Proof. intros Hs. unfold timeseries.clear. step. by step. Qed.

(** X3.  The copy constructor either throws [std::bad_alloc] leaving
    every object as it was, or makes a series with the map, label and flag
    of the original and with its memberspaces bound to the copy.  After
    that the two are independent: inserting into one of them, or clearing
    it, leaves the other as it is. *)
Theorem copy_is_independent σ this ts s :
  timeseries.objects σ !! ts = Some s ->
  timeseries.objects σ !! this = None ->
  (exists σ',
     timeseries.TimeSeries_copy this ts σ = (Throws bad_alloc, σ') /\
     timeseries.objects σ' = timeseries.objects σ) \/
  (exists σ' c,
     timeseries.TimeSeries_copy this ts σ = (Returns tt, σ') /\
     timeseries.objects σ' !! this = Some c /\
     timeseries.objects σ' !! ts = Some s /\
     timeseries.content c = timeseries.content s /\
     timeseries.values_owner (timeseries.values c) = this /\
     timeseries.timestamps_owner (timeseries.timestamps c) = this /\
     (forall val,
        timeseries.objects (timeseries.insert this val σ').2 !! ts = Some s /\
        timeseries.objects (timeseries.insert ts val σ').2 !! this = Some c) /\
     timeseries.objects (timeseries.clear this σ').2 !! ts = Some s /\
     timeseries.objects (timeseries.clear ts σ').2 !! this = Some c).
Proof.
  intros Hs Hn. assert (this <> ts) as Hne by congruence.
  destruct (copy_construct σ this ts s Hs Hn)
    as [(σ' & Hrun & Hobj)|(σ' & Hrun & Hobj)]; [right|left; eauto].
  assert (timeseries.objects σ' !! this =
          Some (timeseries.mkTimeSeries (timeseries.mkValues this)
                  (timeseries.mkTimeStamps this) (timeseries._data s)
                  (timeseries._meta s) (timeseries._isLoaded s))) as Hc
    by (rewrite Hobj; apply lookup_insert_eq).
  assert (timeseries.objects σ' !! ts = Some s) as Hs'
    by (rewrite Hobj, lookup_insert_ne; done).
  exists σ'. eexists. split; [exact Hrun|]. split; [exact Hc|].
  split; [exact Hs'|]. split; [done|]. split; [done|]. split; [done|].
  split; [|split].
  - intros val. split.
    + by rewrite (insert_frame _ _ _ _ _ Hc), Hs'.
    + by rewrite (insert_frame _ _ _ _ _ Hs'), Hc.
  - rewrite (clear_live _ _ _ Hc). live.
  - rewrite (clear_live _ _ _ Hs'). live.
Qed.

(** X4.  [swap] of two different series exchanges their maps, labels and
    flags, leaves each memberspace with its own series, touches no other
    object, and done a second time gives back the store it started from;
    [swap] of a series with itself changes nothing. *)
Theorem swap_exchanges_and_undoes σ a b sa sb :
  timeseries.objects σ !! a = Some sa ->
  timeseries.objects σ !! b = Some sb ->
  (a <> b ->
   exists σ' sa' sb',
     timeseries.swap a b σ = (Returns tt, σ') /\
     timeseries.objects σ' !! a = Some sa' /\
     timeseries.objects σ' !! b = Some sb' /\
     timeseries.content sa' = timeseries.content sb /\
     timeseries.content sb' = timeseries.content sa /\
     timeseries.values sa' = timeseries.values sa /\
     timeseries.timestamps sa' = timeseries.timestamps sa /\
     timeseries.values sb' = timeseries.values sb /\
     timeseries.timestamps sb' = timeseries.timestamps sb /\
     (forall c, c <> a -> c <> b ->
        timeseries.objects σ' !! c = timeseries.objects σ !! c) /\
     timeseries.swap a b σ' = (Returns tt, σ)) /\
  timeseries.swap a a σ = (Returns tt, σ).
Proof.
  intros Ha Hb. split.
  - intros Hne.
    destruct (swap_distinct σ a b sa sb Hne Ha Hb)
      as (σ' & Hrun & Ha' & Hb' & Hothers & Hoom).
    destruct (swap_distinct σ' a b _ _ Hne Ha' Hb')
      as (σ'' & Hrun' & Ha'' & Hb'' & Hothers' & Hoom').
    simpl in Ha'', Hb''. rewrite record_eta in Ha'', Hb''.
    exists σ'. eexists _, _. split; [exact Hrun|]. split; [exact Ha'|].
    split; [exact Hb'|]. do 6 (split; [done|]). split; [exact Hothers|].
    rewrite Hrun'. f_equal. apply state_ext; [|congruence].
    apply map_eq. intros c.
    destruct (decide (c = a)) as [->|Hca]; [congruence|].
    destruct (decide (c = b)) as [->|Hcb]; [congruence|].
    by rewrite Hothers', Hothers.
  - unfold timeseries.swap. do 11 step. step. f_equal.
    apply state_ext; [|done]. simpl.
    rewrite !insert_insert_eq. rewrite record_eta. by apply insert_id.
Qed.

End Mutators.

Section MoreMutators.
Context {T : Type} `{DataPoint T} `{StdLib T}.
#[local] Existing Instance timeseries.comp_bind.
Implicit Types (σ : timeseries.state T) (s : timeseries.TimeSeries T)
  (this : addr).

(** X5.  [clear] removes every entry and nothing else: afterwards the
    size is 0, [isEmpty] holds and there are no timestamps, while the
    label and the load flag are the ones from before and every other
    object is untouched. *)
Theorem clear_keeps_label σ this s :
  timeseries.objects σ !! this = Some s ->
  exists σ',
    timeseries.clear this σ = (Returns tt, σ') /\
    timeseries.size this σ' = (Returns 0%nat, σ') /\
    timeseries.isEmpty this σ' = (Returns true, σ') /\
    timeseries.get_timestamps this σ' = (Returns [], σ') /\
    timeseries.meta this σ' = (Returns (timeseries._meta s), σ') /\
    timeseries.isLoaded this σ' = (Returns (timeseries._isLoaded s), σ') /\
    (forall a, a <> this ->
       timeseries.objects σ' !! a = timeseries.objects σ !! a).
Proof.
  intros Hs. eexists. split; [by apply clear_live|].
  set (s' := timeseries.mkTimeSeries _ _ _ _ _).
  pose proof (replaced_live σ this s') as Hs'.
  rewrite (size_live _ _ _ Hs'), (isEmpty_live _ _ _ Hs'),
    (get_timestamps_live _ _ _ Hs').
  unfold timeseries.meta, timeseries.isLoaded.
  rewrite (get_meta_live _ _ _ Hs'), (get_isLoaded_live _ _ _ Hs').
  repeat (split; [done|]). intros a Hne. live.
Qed.

(** X6.  [set_meta] either throws [std::bad_alloc] leaving every object
    as it was, or returns, after which [meta] gives back the label that
    was set while the map and the load flag are unchanged. *)
Theorem set_meta_then_meta σ this s (m : string) :
  timeseries.objects σ !! this = Some s ->
  (exists σ',
     timeseries.set_meta this m σ = (Throws bad_alloc, σ') /\
     timeseries.objects σ' = timeseries.objects σ) \/
  (exists σ',
     timeseries.set_meta this m σ = (Returns tt, σ') /\
     timeseries.meta this σ' = (Returns m, σ') /\
     timeseries.get_data this σ' = (Returns (timeseries._data s), σ') /\
     timeseries.isLoaded this σ' = (Returns (timeseries._isLoaded s), σ') /\
     (forall a, a <> this ->
        timeseries.objects σ' !! a = timeseries.objects σ !! a)).
Proof.
  intros Hs. unfold timeseries.set_meta.
  destruct (copy_assign_meta_cases σ this s m Hs) as [rest [Hm|Hm]].
  - left. by eexists.
  - right. eexists. split; [exact Hm|].
    match goal with
    | |- context [timeseries.mkState (<[this := ?x]> _) _] => set (s' := x)
    end.
    assert (timeseries.objects
              (timeseries.mkState (<[this := s']> (timeseries.objects σ)) rest)
            !! this = Some s') as Hs' by apply lookup_insert_eq.
    unfold timeseries.meta, timeseries.isLoaded.
    rewrite (get_meta_live _ _ _ Hs'), (get_data_live _ _ _ Hs'),
      (get_isLoaded_live _ _ _ Hs').
    repeat (split; [done|]). intros a Hne. simpl.
    by rewrite lookup_insert_ne.
Qed.

Lemma find_assign_mapped_eq (k : time_t) (v old : T) (d : StdMap.t T) :
  StdMap.find k d = Some old ->
  StdMap.find k (StdMap.assign_mapped k v d) = Some v.
Proof.
  induction d as [|[k' v'] d IH]; simpl; [done|].
  destruct (decide (k = k')) as [->|Hne].
  - intros _. rewrite decide_True by done. simpl. by rewrite decide_True.
  - intros Hf. rewrite decide_False by done. simpl.
    rewrite decide_False by done. auto.
Qed.

Lemma find_assign_mapped_ne (k k' : time_t) (v : T) (d : StdMap.t T) :
  k' <> k ->
  StdMap.find k' (StdMap.assign_mapped k v d) = StdMap.find k' d.
Proof.
  intros Hne. induction d as [|[k0 v0] d IH]; simpl; [done|].
  destruct (decide (k0 = k)) as [->|Hne0]; simpl.
  - by rewrite !decide_False by done.
  - by rewrite IH.
Qed.

Lemma assign_mapped_length (k : time_t) (v : T) (d : StdMap.t T) :
  length (StdMap.assign_mapped k v d) = length d.
Proof. unfold StdMap.assign_mapped. apply length_fmap. Qed.

(** X7.  Assigning through [operator[]] at a timestamp that is present
    replaces that record only: it is the one read back, the records at
    the other timestamps, the timestamps themselves and the size stay.  At
    a timestamp that is absent it throws [std::out_of_range] and inserts
    nothing. *)
Theorem write_index_replaces σ this s (k : time_t) (v : T) :
  timeseries.objects σ !! this = Some s ->
  (forall old,
     StdMap.find k (timeseries._data s) = Some old ->
     exists σ',
       timeseries.write_index this k v σ = (Returns tt, σ') /\
       timeseries.operator_index this k σ' = (Returns v, σ') /\
       (forall k', k' <> k ->
          (timeseries.operator_index this k' σ').1 =
          (timeseries.operator_index this k' σ).1) /\
       timeseries.get_timestamps this σ' =
         (Returns (timeseries._data s).*1, σ') /\
       timeseries.size this σ' =
         (Returns (StdMap.size (timeseries._data s)), σ')) /\
  (StdMap.find k (timeseries._data s) = None ->
     timeseries.write_index this k v σ = (Throws out_of_range, σ)).
Proof.
  intros Hs. split.
  - intros old Hf. eexists. split.
    { unfold timeseries.write_index. step. unfold StdMap.at_. rewrite Hf.
      unfold mbind at 1, timeseries.comp_bind at 1, timeseries.bind at 1.
      simpl. by erewrite set_data_live by live. }
    set (s' := timeseries.mkTimeSeries _ _ _ _ _).
    assert (timeseries.objects
              (timeseries.mkState (<[this := s']> (timeseries.objects σ))
                 (timeseries.oom σ)) !! this = Some s') as Hs'
      by apply lookup_insert_eq.
    unfold timeseries.operator_index.
    rewrite (get_timestamps_live _ _ _ Hs'), (size_live _ _ _ Hs').
    repeat erewrite (bind_returns (timeseries.get_data _))
      by (apply get_data_live; first [exact Hs' | exact Hs]).
    simpl. unfold StdMap.at_, StdMap.size.
    rewrite (find_assign_mapped_eq _ _ _ _ Hf), assign_mapped_keys,
      assign_mapped_length.
    repeat (split; [done|]). split; [|done].
    intros k' Hne.
    rewrite (bind_returns _ _ _ _ _ (get_data_live _ _ _ Hs')).
    rewrite (bind_returns _ _ _ _ _ (get_data_live _ _ _ Hs)).
    simpl. by rewrite (find_assign_mapped_ne _ _ _ _ Hne).
  - intros Hf. unfold timeseries.write_index. step. unfold StdMap.at_.
    by rewrite Hf.
Qed.

End MoreMutators.

(** ** Rows that repeat a timestamp *)

Section Duplicates.
Context {T : Type} `{DataPoint T} `{StdLib T}.
#[local] Existing Instance timeseries.comp_bind.
Implicit Types (σ : timeseries.state T) (s : timeseries.TimeSeries T)
  (this : addr) (rows : list (StdMap.value_type T)).

Lemma ok_keys_NoDup (d : StdMap.t T) : StdMap.ok d -> NoDup d.*1.
Proof.
  unfold StdMap.ok. induction (d.*1) as [|k l IH]; intros Hok.
  - constructor.
  - apply StronglySorted_inv in Hok as [Hok Hall]. constructor; [|auto].
    intros Hin. rewrite Forall_forall in Hall. specialize (Hall _ Hin). lia.
Qed.

Lemma elem_of_place_keys (k t : time_t) (v : T) (d : StdMap.t T) :
  k ∈ (StdMap.place t v d).*1 <-> k = t \/ k ∈ d.*1.
Proof. rewrite place_keys. apply elem_of_cons. Qed.

(** The first row that carries a timestamp. *)
Lemma find_first_row rows (i : nat) (r : StdMap.value_type T) :
  rows !! i = Some r ->
  r.1 ∉ (take i rows).*1 ->
  StdMap.find r.1 rows = Some r.2.
Proof.
  revert i. induction rows as [|[t v] rows IH]; intros [|i]; simpl;
    try done.
  - intros [= <-] _. simpl. by rewrite decide_True.
  - intros Hr Hnot. apply not_elem_of_cons in Hnot as [Hne Hnot].
    rewrite decide_False by done. by apply (IH i).
Qed.

(** With memory for a node the in-place overload returns what
    [std::map::insert] gives for the pair; the node may or may not have
    been allocated. *)
Lemma insert_emplace_granted σ this s (t : time_t) (v : T) :
  timeseries.objects σ !! this = Some s ->
  head (timeseries.oom σ) <> Some true ->
  exists rest,
    timeseries.insert_emplace this t v σ =
      (Returns (StdMap.insert (t, v) (timeseries._data s)).2,
       timeseries.mkState
         (<[this := timeseries.mkTimeSeries (timeseries.values s)
                      (timeseries.timestamps s)
                      (StdMap.insert (t, v) (timeseries._data s)).1
                      (timeseries._meta s) (timeseries._isLoaded s)]>
            (timeseries.objects σ))
         rest) /\
    (rest = timeseries.oom σ \/ rest = tail (timeseries.oom σ)).
Proof.
  intros Hs Hoom. rewrite (insert_emplace_run _ _ _ _ _ Hs).
  rewrite (insert_run _ _ _ (t, v) Hs). unfold StdMap.insert. simpl.
  assert (timeseries.objects (timeseries.after_allocation σ) !! this =
          Some s) as Hs' by done.
  destruct (StdMap.find t (timeseries._data s)) as [r|]; simpl.
  - destruct emplace_constructs_first.
    + rewrite decide_False by done. exists (tail (timeseries.oom σ)).
      split; [|by right]. f_equal. symmetry.
      apply (store_members _ _ _ Hs').
    + exists (timeseries.oom σ). split; [|by left]. f_equal. symmetry.
      apply (store_members _ _ _ Hs).
  - rewrite decide_False by done. exists (tail (timeseries.oom σ)).
    split; [done|by right].
Qed.

Lemma insert_each_any rows :
  forall σ this s,
    timeseries.objects σ !! this = Some s ->
    StdMap.ok (timeseries._data s) ->
    timeseries.granted (length rows) σ ->
    exists flags s' rest,
      timeseries.insert_each this rows σ =
        (Returns flags,
         timeseries.mkState (<[this := s']> (timeseries.objects σ)) rest) /\
      StdMap.ok (timeseries._data s') /\
      (forall k,
         StdMap.find k (timeseries._data s') =
         match StdMap.find k (timeseries._data s) with
         | Some v => Some v
         | None => StdMap.find k rows
         end) /\
      (forall i r,
         rows !! i = Some r ->
         flags !! i =
           Some (bool_decide
                   (r.1 ∉ (timeseries._data s).*1 ++ (take i rows).*1))).
Proof.
  induction rows as [|[t v] rows IH]; intros σ this s Hs Hok Hmem.
  - exists [], s, (timeseries.oom σ). simpl. unfold timeseries.ret.
    rewrite (store_same _ _ _ Hs). split; [done|]. split; [done|].
    split; [|done]. intros k. by destruct (StdMap.find k _).
  - simpl in Hmem. apply granted_S in Hmem as (Hhead & Hmem1 & Hmem0).
    destruct (insert_emplace_granted σ this s t v Hs Hhead)
      as (rest1 & Hrun & Hrest1).
    set (d1 := (StdMap.insert (t, v) (timeseries._data s)).1) in *.
    set (s1 := timeseries.mkTimeSeries (timeseries.values s)
                 (timeseries.timestamps s) d1
                 (timeseries._meta s) (timeseries._isLoaded s)) in *.
    set (σ1 := timeseries.mkState (<[this := s1]> (timeseries.objects σ))
                 rest1) in *.
    assert (StdMap.ok d1) as Hok1 by (by apply insert_ok).
    assert (timeseries.granted (length rows) σ1) as Hmem'
      by (by destruct Hrest1 as [-> | ->]).
    destruct (IH σ1 this s1 (lookup_insert_eq _ _ _) Hok1 Hmem')
      as (flags & s' & rest & Hrest & Hok' & Hfind & Hflags).
    exists ((StdMap.insert (t, v) (timeseries._data s)).2 :: flags), s', rest.
    split; [|split; [exact Hok'|split]].
    + cbn [timeseries.insert_each]. simpl.
      rewrite (bind_returns (timeseries.insert_emplace this t v) _ _ _ _ Hrun).
      rewrite (bind_returns _ _ _ _ _ Hrest).
      unfold timeseries.ret. simpl. by rewrite insert_insert_eq.
    + intros k. rewrite Hfind. simpl. subst d1. unfold StdMap.insert. simpl.
      destruct (StdMap.find t (timeseries._data s)) as [old|] eqn:Ht; simpl.
      * destruct (StdMap.find k (timeseries._data s)) eqn:Hk; [done|].
        rewrite decide_False; [done|]. intros ->. congruence.
      * destruct (decide (k = t)) as [->|Hne].
        -- by rewrite (find_place_eq _ _ _ Ht), Ht.
        -- by rewrite (find_place_ne _ _ _ _ Hne).
    + intros [|i] r; simpl.
      * intros [= <-]. simpl. f_equal. rewrite app_nil_r.
        unfold StdMap.insert. simpl.
        destruct (StdMap.find t (timeseries._data s)) eqn:Ht; simpl;
          symmetry.
        -- apply bool_decide_eq_false. intros Hn.
           apply find_None_keys in Hn. congruence.
        -- apply bool_decide_eq_true. by apply find_None_keys.
      * intros Hr. rewrite (Hflags i r Hr). f_equal. simpl.
        apply bool_decide_ext. rewrite !not_elem_of_app, not_elem_of_cons.
        subst d1. unfold StdMap.insert. simpl.
        destruct (StdMap.find t (timeseries._data s)) eqn:Ht; simpl.
        -- assert (t ∈ (timeseries._data s).*1) as Hin.
           { destruct (decide (t ∈ (timeseries._data s).*1)) as [|Hn];
               [done|]. apply find_None_keys in Hn. congruence. }
           split; [|tauto]. intros [Hn1 Hn2]. split; [done|].
           split; [|done]. intros Heq. by rewrite Heq in Hn1.
        -- rewrite elem_of_place_keys. tauto.
Qed.

(** X8.  When all rows are inserted into an empty series, with memory
    for a node per row, the first row of each timestamp wins: the flag returned for a row tells whether its
    timestamp had not occurred earlier, the record read back at a
    timestamp is that of its first row, a timestamp that no row carries is
    still absent, and size and timestamps are those of the distinct
    timestamps, in ascending order. *)
Theorem first_insertion_wins σ this s rows :
  timeseries.objects σ !! this = Some s ->
  timeseries._data s = StdMap.empty_map ->
  timeseries.granted (length rows) σ ->
  exists σ' flags ts,
    timeseries.insert_each this rows σ = (Returns flags, σ') /\
    (forall i r,
       rows !! i = Some r ->
       flags !! i = Some (bool_decide (r.1 ∉ (take i rows).*1)) /\
       (r.1 ∉ (take i rows).*1 ->
        timeseries.operator_index this r.1 σ' = (Returns r.2, σ'))) /\
    (forall k,
       k ∉ rows.*1 ->
       timeseries.operator_index this k σ' = (Throws out_of_range, σ')) /\
    timeseries.size this σ' = (Returns (length (remove_dups rows.*1)), σ') /\
    timeseries.get_timestamps this σ' = (Returns ts, σ') /\
    StronglySorted Z.lt ts /\
    ts ≡ₚ remove_dups rows.*1.
Proof.
  intros Hs Hempty Hmem.
  destruct (insert_each_any rows σ this s Hs)
    as (flags & s' & rest & Hrun & Hok & Hfind & Hflags).
  { rewrite Hempty. constructor. }
  { exact Hmem. }
  rewrite Hempty in Hfind, Hflags. simpl in Hfind, Hflags.
  set (σ' := timeseries.mkState (<[this := s']> (timeseries.objects σ)) rest)
    in *.
  assert (timeseries.objects σ' !! this = Some s') as Hs'
    by apply lookup_insert_eq.
  assert ((timeseries._data s').*1 ≡ₚ remove_dups rows.*1) as Hperm.
  { apply NoDup_Permutation;
      [by apply ok_keys_NoDup | apply NoDup_remove_dups |].
    intros k. rewrite elem_of_remove_dups.
    split; intros Hin.
    - destruct (decide (k ∈ rows.*1)) as [|Hn]; [done|].
      apply find_None_keys in Hn. rewrite <- Hfind in Hn.
      apply find_None_keys in Hn. done.
    - destruct (decide (k ∈ (timeseries._data s').*1)) as [|Hn]; [done|].
      apply find_None_keys in Hn. rewrite Hfind in Hn.
      apply find_None_keys in Hn. done. }
  exists σ', flags, (timeseries._data s').*1.
  split; [exact Hrun|]. split; [|split; [|split; [|split; [|split]]]].
  - intros i r Hr. split; [by apply Hflags|]. intros Hfirst.
    unfold timeseries.operator_index.
    rewrite (bind_returns _ _ _ _ _ (get_data_live _ _ _ Hs')).
    unfold StdMap.at_. by rewrite Hfind, (find_first_row _ _ _ Hr Hfirst).
  - intros k Hk. unfold timeseries.operator_index.
    rewrite (bind_returns _ _ _ _ _ (get_data_live _ _ _ Hs')).
    unfold StdMap.at_. rewrite Hfind.
    apply find_None_keys in Hk. by rewrite Hk.
  - rewrite (size_live _ _ _ Hs'). unfold StdMap.size.
    by rewrite <- Hperm, length_fmap.
  - by apply get_timestamps_live.
  - exact Hok.
  - exact Hperm.
Qed.

End Duplicates.

(** ** Reading a series *)

Section Reading.
Context {T : Type} `{DataPoint T} `{StdLib T}.
#[local] Existing Instance timeseries.comp_bind.
Implicit Types (σ : timeseries.state T) (s : timeseries.TimeSeries T)
  (this : addr).

Lemma bind_undefined_run {A B} (c : timeseries.comp T A)
    (k : A -> timeseries.comp T B) σ σ' :
  c σ = (Undefined, σ') -> (c ≫= k) σ = (Undefined, σ').
Proof.
  intros Hc. unfold mbind, timeseries.comp_bind, timeseries.bind.
  by rewrite Hc.
Qed.

(** X9.  [isEmpty] is the test that guards [first] and [last]: it answers
    [true] exactly when the size is 0, and then both are undefined and
    there are no timestamps; when it answers [false] both return, [first]
    being the first and [last] the last element of [get_timestamps]. *)
Theorem isEmpty_guards_first_last σ this s :
  timeseries.objects σ !! this = Some s ->
  exists n b ts,
    timeseries.size this σ = (Returns n, σ) /\
    timeseries.isEmpty this σ = (Returns b, σ) /\
    timeseries.get_timestamps this σ = (Returns ts, σ) /\
    (b = true <-> n = 0%nat) /\
    (b = true ->
       ts = [] /\
       timeseries.first this σ = (Undefined, σ) /\
       timeseries.last this σ = (Undefined, σ)) /\
    (b = false ->
       exists f l,
         timeseries.first this σ = (Returns (from_time_t f), σ) /\
         timeseries.last this σ = (Returns (from_time_t l), σ) /\
         head ts = Some f /\ last ts = Some l).
Proof.
  intros Hs. eexists _, _, _.
  rewrite (size_live _ _ _ Hs), (isEmpty_live _ _ _ Hs),
    (get_timestamps_live _ _ _ Hs), (first_live _ _ _ Hs),
    (last_live _ _ _ Hs).
  do 3 (split; [reflexivity|]).
  rewrite fmap_last.
  destruct (timeseries._data s) as [|p d]; simpl.
  - split; [by split|]. split; [done|]. done.
  - split; [split; [done|intros [=]]|]. split; [done|]. intros _.
    destruct (last (p :: d)) as [q|] eqn:Hq;
      [|rewrite last_cons in Hq; by destruct (last d)].
    exists p.1, q.1. do 3 (split; [done|]).
    change (fst <$> last (p :: d) = Some q.1). by rewrite Hq.
Qed.

(** X10.  In a well-formed store the ways of reading a series agree:
    iterating the container yields as many pairs as [size] tells, their
    timestamps are what [get_timestamps] returns, the record of each pair
    is the one that [operator[]] returns at its timestamp, and at every
    other timestamp [operator[]] throws [std::out_of_range].  None of them
    changes the store. *)
Theorem iteration_agrees_with_lookup σ this s :
  timeseries.state_ok σ ->
  timeseries.objects σ !! this = Some s ->
  exists ps,
    timeseries.traverse this σ = (Returns ps, σ) /\
    timeseries.size this σ = (Returns (length ps), σ) /\
    timeseries.get_timestamps this σ = (Returns ps.*1, σ) /\
    (forall p, p ∈ ps ->
       timeseries.operator_index this p.1 σ = (Returns p.2, σ)) /\
    (forall k, k ∉ ps.*1 ->
       timeseries.operator_index this k σ = (Throws out_of_range, σ)).
Proof.
  intros Hwf Hs. destruct (Hwf _ _ Hs) as (Hv & Ht & Hok).
  exists (timeseries._data s).
  split; [by apply traverse_live|]. split; [by apply size_live|].
  split; [by apply get_timestamps_live|]. split.
  - intros [t v] Hin. unfold timeseries.operator_index.
    rewrite (bind_returns _ _ _ _ _ (get_data_live _ _ _ Hs)).
    unfold StdMap.at_. simpl. by rewrite (find_elem _ _ _ Hok Hin).
  - intros k Hk. apply find_None_keys in Hk. unfold timeseries.operator_index.
    rewrite (bind_returns _ _ _ _ _ (get_data_live _ _ _ Hs)).
    unfold StdMap.at_. by rewrite Hk.
Qed.

Lemma column_names_live σ this s :
  timeseries.objects σ !! this = Some s ->
  timeseries.column_names this σ = (Returns (dp_names (schema_of T)), σ).
Proof.
  intros Hs. unfold timeseries.column_names.
  by rewrite (bind_returns _ _ _ _ _ (load_live _ _ _ Hs)).
Qed.

(** X11.  [print_meta] needs a series with entries.  On an empty series
    it is undefined, since it prints [first()] and [last()]; otherwise it
    prints the label, the number of rows, one column more than the schema
    has field names (the timestamps), the field names, and the smallest
    and the largest timestamp, and leaves the series unchanged. *)
Theorem print_meta_needs_entries σ this s :
  timeseries.objects σ !! this = Some s ->
  (timeseries._data s = [] ->
     timeseries.print_meta this σ = (Undefined, σ)) /\
  (forall p q,
     head (timeseries._data s) = Some p ->
     last (timeseries._data s) = Some q ->
     timeseries.print_meta this σ =
       (Returns
          ([ Endl; Text "Meta/Name: "; Text (timeseries._meta s); Endl;
             Text "Dimensions: "; Number (length (timeseries._data s));
             Text " rows, "; Number (length (dp_names (schema_of T)) + 1);
             Text " columns"; Endl; Text "Columns: " ] ++
           flat_map (fun c => [Text c; Text " "]) (dp_names (schema_of T)) ++
           [ Endl; Text "First timestamp: "; Time (from_time_t p.1); Endl;
             Text "Last timestamp: "; Time (from_time_t q.1); Endl ]),
        σ)).
Proof.
  intros Hs. unfold timeseries.print_meta.
  rewrite (bind_returns _ _ _ _ _ (column_names_live _ _ _ Hs)).
  rewrite (bind_returns _ _ _ _ _ (get_meta_live _ _ _ Hs)).
  rewrite (bind_returns _ _ _ _ _ (size_live _ _ _ Hs)).
  split.
  - intros Hd.
    erewrite bind_undefined_run; [done|].
    rewrite (first_live _ _ _ Hs). by rewrite Hd.
  - intros p q Hp Hq.
    erewrite (bind_returns (timeseries.first this));
      [|rewrite (first_live _ _ _ Hs), Hp; reflexivity].
    erewrite (bind_returns (timeseries.last this));
      [|rewrite (last_live _ _ _ Hs), Hq; reflexivity].
    unfold timeseries.ret, StdMap.size. simpl. f_equal. f_equal.
    by rewrite <- !app_assoc.
Qed.

End Reading.

(** ** What [assign] leaves of its argument *)

Section AssignSource.
Context {T : Type} `{DataPoint T} `{StdLib T}.
#[local] Existing Instance timeseries.comp_bind.
Implicit Types (σ : timeseries.state T) (s : timeseries.TimeSeries T)
  (this : addr).

(** X12.  [assign] from an rvalue never throws: the target takes the
    map, label and flag of the source and keeps its own memberspaces, the
    source is left with an empty map and not loaded, and the temporary is
    gone.  [assign] from an lvalue, when it returns, leaves the source
    exactly as it was. *)
Theorem assign_and_its_source σ this a t r :
  this <> a ->
  timeseries.objects σ !! this = Some t ->
  timeseries.objects σ !! a = Some r ->
  (exists σ' t' r',
     timeseries.assign this (timeseries.rvalue a) σ = (Returns this, σ') /\
     timeseries.objects σ' !! this = Some t' /\
     timeseries.content t' = timeseries.content r /\
     timeseries.values t' = timeseries.values t /\
     timeseries.timestamps t' = timeseries.timestamps t /\
     timeseries.objects σ' !! a = Some r' /\
     timeseries._data r' = StdMap.empty_map /\
     timeseries._isLoaded r' = false /\
     timeseries.objects σ' !! fresh (dom (timeseries.objects σ)) = None) /\
  (forall σ',
     timeseries.assign this (timeseries.lvalue a) σ = (Returns this, σ') ->
     timeseries.objects σ' !! a = Some r /\
     exists t',
       timeseries.objects σ' !! this = Some t' /\
       timeseries.content t' = timeseries.content r /\
       timeseries.values t' = timeseries.values t /\
       timeseries.timestamps t' = timeseries.timestamps t).
Proof.
  intros Hne Ht Hr.
  pose proof (temporary_fresh σ) as Hfresh.
  set (tmp := fresh (dom (timeseries.objects σ))) in *.
  assert (tmp <> this) as Hne1 by congruence.
  assert (tmp <> a) as Hne2 by congruence.
  split.
  - unfold timeseries.assign.
    rewrite (bind_returns timeseries.temporary _ σ _ σ eq_refl).
    fold tmp.
    destruct (move_construct σ tmp a r Hr Hfresh)
      as (σ1 & Hc & Hsrc & Htmp & Hothers & _).
    rewrite (bind_returns _ _ _ _ _ Hc).
    assert (timeseries.objects σ1 !! this = Some t) as Ht1
      by (by rewrite Hothers).
    destruct (swap_distinct σ1 this tmp _ _ (not_eq_sym Hne1) Ht1 Htmp)
      as (σ2 & Hsw & Hthis & Htmp2 & Hothers2 & _).
    rewrite (bind_returns _ _ _ _ _ Hsw).
    rewrite (bind_returns _ _ _ _ _ (destroy_live _ _ _ Htmp2)).
    eexists _, _, _. split; [reflexivity|]. simpl.
    split; [by rewrite lookup_delete_ne|]. do 3 (split; [done|]).
    split; [rewrite lookup_delete_ne by done;
            rewrite Hothers2 by congruence; exact Hsrc|].
    split; [done|]. split; [done|]. apply lookup_delete_eq.
  - intros σ' Hrun. unfold timeseries.assign in Hrun.
    rewrite (bind_returns timeseries.temporary _ σ _ σ eq_refl) in Hrun.
    fold tmp in Hrun.
    destruct (copy_construct σ tmp a r Hr Hfresh)
      as [(σ1 & Hc & Hobj) | (σ1 & Hc & Hobj)].
    2:{ by rewrite (bind_throws _ _ _ _ _ Hc) in Hrun. }
    rewrite (bind_returns _ _ _ _ _ Hc) in Hrun.
    assert (timeseries.objects σ1 !! this = Some t) as Ht1
      by (rewrite Hobj; live).
    assert (timeseries.objects σ1 !! a = Some r) as Hr1
      by (rewrite Hobj; live).
    assert (timeseries.objects σ1 !! tmp = Some
              (timeseries.mkTimeSeries (timeseries.mkValues tmp)
                 (timeseries.mkTimeStamps tmp) (timeseries._data r)
                 (timeseries._meta r) (timeseries._isLoaded r))) as Htmp
      by (rewrite Hobj; live).
    destruct (swap_distinct σ1 this tmp _ _ (not_eq_sym Hne1) Ht1 Htmp)
      as (σ2 & Hsw & Hthis & Htmp2 & Hothers2 & _).
    rewrite (bind_returns _ _ _ _ _ Hsw) in Hrun.
    rewrite (bind_returns _ _ _ _ _ (destroy_live _ _ _ Htmp2)) in Hrun.
    injection Hrun as <-. simpl. split.
    + rewrite lookup_delete_ne by done. by rewrite Hothers2 by congruence.
    + eexists. rewrite lookup_delete_ne by done. split; [exact Hthis|done].
Qed.

End AssignSource.

(** ** Exception messages and the column check of the loader *)

Section Messages.

Lemma of_list_messages :
  StdMap.of_list messages =
  [ (0, "Unknown DataPoint Exception.");
    (1000, "Vector initialization failed. Index out of range.") ].
Proof. reflexivity. Qed.

Lemma of_list_tsdb_messages : StdMap.of_list tsdb.messages = tsdb.messages.
Proof. reflexivity. Qed.

(** X13.  The message that [what()] builds is the base text followed by
    the message of the error code, and for a code without a message the
    one of code 0; since both tables have an entry for 0 the fall-back
    lookup cannot fail, and no [std::out_of_range] leaves [what()]. *)
Theorem what_falls_back_to_unknown (error_code : Z) :
  (forall m, (error_code, m) ∈ messages ->
     DataPointException_what error_code = Returns (String.append base_msg m)) /\
  (error_code ∉ messages.*1 ->
     DataPointException_what error_code =
       Returns (String.append base_msg "Unknown DataPoint Exception.")) /\
  (forall m, (error_code, m) ∈ tsdb.messages ->
     tsdb.what error_code = Returns (String.append tsdb.base_msg m)) /\
  (error_code ∉ tsdb.messages.*1 ->
     tsdb.what error_code =
       Returns (String.append tsdb.base_msg "Unknown TSDBInterface exception.")).
Proof.
  unfold DataPointException_what, tsdb.what, what_string.
  rewrite of_list_messages, of_list_tsdb_messages.
  repeat apply conj.
  - intros m Hin. unfold messages in Hin.
    repeat (apply elem_of_cons in Hin as [[= -> ->]|Hin]; [reflexivity|]).
    by apply elem_of_nil in Hin.
  - intros Hn. unfold messages in Hn. simpl in Hn.
    rewrite !not_elem_of_cons in Hn. destruct Hn as (H1 & H2 & _).
    unfold StdMap.at_ at 1. simpl.
    by rewrite !decide_False by done.
  - intros m Hin. unfold tsdb.messages in Hin.
    repeat (apply elem_of_cons in Hin as [[= -> ->]|Hin]; [reflexivity|]).
    by apply elem_of_nil in Hin.
  - intros Hn. unfold tsdb.messages in Hn. simpl in Hn.
    rewrite !not_elem_of_cons in Hn.
    destruct Hn as (H0 & H1 & H2 & H3 & H4 & H5 & H6 & H7 & _).
    unfold StdMap.at_ at 1. unfold tsdb.messages at 1. simpl.
    by rewrite !decide_False by done.
Qed.

End Messages.

Section Columns.

Lemma ltb_not_le (a b : string) : String.ltb a b = true <-> ~ String.le b a.
Proof.
  unfold String.le, String.leb, String.ltb.
  rewrite (String.compare_antisym b a).
  destruct (String.compare a b); simpl; naive_solver.
Qed.

Lemma ltb_false_le (a b : string) : String.ltb a b = false <-> String.le b a.
Proof.
  destruct (String.ltb a b) eqn:Hlt.
  - apply ltb_not_le in Hlt. split; [done|]. intros. done.
  - split; [|done]. intros _.
    destruct (decide (String.le b a)) as [|Hn]; [done|].
    apply ltb_not_le in Hn. congruence.
Qed.

Lemma includes_sorted (range1 : list string) :
  forall range2,
    StronglySorted String.le range1 ->
    StronglySorted String.le range2 ->
    NoDup range2 ->
    tsdb.includes range1 range2 = true <->
    forall y, y ∈ range2 -> y ∈ range1.
Proof.
  induction range1 as [|x l1 IH]; intros [|y l2] Hs1 Hs2 Hnd; simpl.
  - split; [intros _ y Hy; by apply elem_of_nil in Hy | done].
  - split; [done|]. intros Hall.
    exfalso. eapply not_elem_of_nil, (Hall y). left.
  - split; [intros _ y Hy; by apply elem_of_nil in Hy | done].
  - apply StronglySorted_inv in Hs1 as [Hs1 Hx].
    pose proof Hs2 as Hs2full.
    apply StronglySorted_inv in Hs2 as [Hs2 Hy].
    pose proof Hnd as Hndfull.
    apply NoDup_cons in Hnd as [Hynot Hnd].
    rewrite Forall_forall in Hx, Hy.
    destruct (String.ltb y x) eqn:Hyx.
    + apply ltb_not_le in Hyx. split; [done|]. intros Hall. exfalso.
      assert (y ∈ x :: l1) as Hin by (apply Hall; left).
      apply elem_of_cons in Hin as [->|Hin]; [by apply Hyx|].
      by apply Hyx, Hx.
    + apply ltb_false_le in Hyx.
      destruct (String.ltb x y) eqn:Hxy; simpl.
      * apply ltb_not_le in Hxy.
        rewrite (IH (y :: l2) Hs1 Hs2full Hndfull). split.
        -- intros Hall z Hz. right. by apply Hall.
        -- intros Hall z Hz. pose proof (Hall z Hz) as Hin.
           apply elem_of_cons in Hin as [->|Hin]; [|done]. exfalso.
           apply elem_of_cons in Hz as [->|Hz]; [by apply Hxy|].
           by apply Hxy, Hy.
      * apply ltb_false_le in Hxy.
        assert (x = y) as -> by (by apply (anti_symm String.le)).
        rewrite (IH l2 Hs1 Hs2 Hnd). split.
        -- intros Hall z Hz.
           apply elem_of_cons in Hz as [->|Hz]; [left|right; by apply Hall].
        -- intros Hall z Hz.
           assert (z ∈ y :: l1) as Hin by (apply Hall; by right).
           apply elem_of_cons in Hin as [->|Hin]; [done|done].
Qed.

Lemma dp_names_NoDup (sch : schema) : NoDup (dp_names sch).
Proof.
  destruct sch; simpl; apply (bool_decide_unpack _); vm_compute; reflexivity.
Qed.

(** X14.  The column check of the loader accepts a table exactly when
    every field name of the record type is among the table's column
    names; the order of the columns, repeated names and further columns
    make no difference. *)
Theorem columns_match_iff_all_present (T : Type) `{DataPoint T}
    (get_column_names : list string) :
  tsdb._columns_match_type T get_column_names = true <->
  forall name, name ∈ dp_names (schema_of T) -> name ∈ get_column_names.
Proof.
  unfold tsdb._columns_match_type, tsdb.sort.
  assert (tsdb.includes (merge_sort String.le get_column_names)
            (merge_sort String.le (dp_names (schema_of T))) = true <->
          forall name,
            name ∈ dp_names (schema_of T) -> name ∈ get_column_names) as Hiff.
  { rewrite includes_sorted.
    - split; intros Hall name Hn.
      + rewrite <- (merge_sort_Permutation String.le get_column_names).
        apply Hall. by rewrite merge_sort_Permutation.
      + rewrite merge_sort_Permutation in Hn |- *. by apply Hall.
    - apply StronglySorted_merge_sort; apply _.
    - apply StronglySorted_merge_sort; apply _.
    - rewrite merge_sort_Permutation. apply dp_names_NoDup. }
  rewrite <- Hiff. by destruct (tsdb.includes _ _).
Qed.

End Columns.

(** ** The further properties on concrete series *)

Lemma reachable_stores_well_formed_witness :
  timeseries.state_ok populated_state.
Proof.
  apply (reachable_stores_well_formed populated_state).
  unfold populated_state, constructed_state.
  apply timeseries.reachable_call; [apply timeseries.reachable_call|].
  - apply timeseries.reachable_start.
  - vm_compute. discriminate.
  - vm_compute. discriminate.
Defined.

Lemma loaded_flag_never_set_witness :
  (timeseries.isLoaded 1 populated_state).1 = Returns false.
Proof.
  assert ((timeseries.isLoaded 1 populated_state).1 = Returns false ->
          false = false) as Hflag.
  { apply (loaded_flag_never_set populated_state 1%positive).
    unfold populated_state, constructed_state.
    apply timeseries.reachable_call; [apply timeseries.reachable_call|].
    - apply timeseries.reachable_start.
    - vm_compute. discriminate.
    - vm_compute. discriminate. }
  reflexivity.
Defined.

Lemma copy_is_independent_witness :
  exists σ' c,
    timeseries.TimeSeries_copy 2 1 three_bar_state = (Returns tt, σ') /\
    timeseries.objects σ' !! 2%positive = Some c /\
    timeseries.content c =
      timeseries.content (series_of 1 three_bars "ts1" true) /\
    timeseries.objects
      (timeseries.insert 2 (300, bar 1 1 1 1) σ').2 !! 1%positive =
      Some (series_of 1 three_bars "ts1" true).
Proof.
  destruct (copy_is_independent three_bar_state 2 1
              (series_of 1 three_bars "ts1" true) eq_refl eq_refl)
    as [(σ' & Hrun & _) | (σ' & c & Hrun & Hc & _ & Hcontent & _ & _ & Hins & _)].
  - vm_compute in Hrun. discriminate.
  - exists σ', c. split; [exact Hrun|]. split; [exact Hc|].
    split; [exact Hcontent|]. apply Hins.
Defined.

Lemma swap_exchanges_and_undoes_witness :
  exists σ',
    timeseries.swap 1 2 (two_series_state []) = (Returns tt, σ') /\
    timeseries.swap 1 2 σ' = (Returns tt, two_series_state []).
Proof.
  destruct (swap_exchanges_and_undoes (two_series_state []) 1 2
              (series_of 1 one_bar "ts1" false)
              (series_of 2 three_bars label true) eq_refl eq_refl)
    as [Hswap _].
  destruct Hswap as (σ' & _ & _ & Hrun & _ & _ & _ & _ & _ & _ & _ & _ & _ & Hback);
    [discriminate|].
  by exists σ'.
Defined.

Lemma clear_keeps_label_witness :
  exists σ',
    timeseries.clear 1 three_bar_state = (Returns tt, σ') /\
    timeseries.size 1 σ' = (Returns 0%nat, σ') /\
    timeseries.meta 1 σ' = (Returns "ts1", σ') /\
    timeseries.isLoaded 1 σ' = (Returns true, σ').
Proof.
  destruct (clear_keeps_label three_bar_state 1
              (series_of 1 three_bars "ts1" true) eq_refl)
    as (σ' & Hrun & Hsize & _ & _ & Hmeta & Hloaded & _).
  by exists σ'.
Defined.

Lemma set_meta_then_meta_witness :
  exists σ',
    timeseries.set_meta 1 label three_bar_state = (Returns tt, σ') /\
    timeseries.meta 1 σ' = (Returns label, σ').
Proof.
  destruct (set_meta_then_meta three_bar_state 1
              (series_of 1 three_bars "ts1" true) label eq_refl)
    as [(σ' & Hrun & _) | (σ' & Hrun & Hmeta & _)].
  - vm_compute in Hrun. discriminate.
  - by exists σ'.
Defined.

Lemma write_index_replaces_witness :
  exists σ',
    timeseries.write_index 1 160 (bar 0 0 0 0) three_bar_state =
      (Returns tt, σ') /\
    timeseries.operator_index 1 160 σ' = (Returns (bar 0 0 0 0), σ') /\
    timeseries.get_timestamps 1 σ' = (Returns [100; 160; 220], σ').
Proof.
  destruct (write_index_replaces three_bar_state 1
              (series_of 1 three_bars "ts1" true) 160 (bar 0 0 0 0) eq_refl)
    as [Hpresent _].
  destruct (Hpresent (bar 11 13 10 12) eq_refl)
    as (σ' & Hrun & Hread & _ & Hts & _).
  by exists σ'.
Defined.

Lemma first_insertion_wins_witness :
  exists σ' flags,
    timeseries.insert_each 1 repeating_rows empty_series_state =
      (Returns flags, σ') /\
    flags !! 2%nat = Some false /\
    timeseries.operator_index 1 160 σ' = (Returns (bar 11 13 10 12), σ') /\
    timeseries.size 1 σ' = (Returns 2%nat, σ').
Proof.
  destruct (first_insertion_wins empty_series_state 1
              (series_of 1 [] "ts1" false) repeating_rows eq_refl eq_refl)
    as (σ' & flags & ts & Hrun & Hrows & _ & Hsize & _).
  { unfold timeseries.granted. apply (bool_decide_unpack _). vm_compute.
    reflexivity. }
  exists σ', flags. split; [exact Hrun|]. split; [|split; [|exact Hsize]].
  - by destruct (Hrows 2%nat (160, bar 0 0 0 0) eq_refl) as [-> _].
  - apply (Hrows 0%nat (160, bar 11 13 10 12) eq_refl). simpl.
    apply not_elem_of_nil.
Defined.

Lemma isEmpty_guards_first_last_witness :
  exists n b ts,
    timeseries.size 1 empty_series_state = (Returns n, empty_series_state) /\
    timeseries.isEmpty 1 empty_series_state = (Returns b, empty_series_state) /\
    timeseries.get_timestamps 1 empty_series_state =
      (Returns ts, empty_series_state) /\
    (b = true <-> n = 0%nat).
Proof.
  destruct (isEmpty_guards_first_last empty_series_state 1
              (series_of 1 [] "ts1" false) eq_refl)
    as (n & b & ts & Hsize & Hempty & Hts & Hiff & _).
  by exists n, b, ts.
Defined.

Lemma iteration_agrees_with_lookup_witness :
  exists ps,
    timeseries.traverse 1 populated_state = (Returns ps, populated_state) /\
    timeseries.size 1 populated_state = (Returns (length ps), populated_state) /\
    timeseries.get_timestamps 1 populated_state =
      (Returns ps.*1, populated_state) /\
    timeseries.operator_index 1 130 populated_state =
      (Throws out_of_range, populated_state).
Proof.
  destruct (iteration_agrees_with_lookup populated_state 1
              (series_of 1 one_bar "ts1" false))
    as (ps & Hps & Hsize & Hts & _ & Habsent).
  - change (timeseries.state_ok
              (state_of [ (1%positive, series_of 1 one_bar "ts1" false) ] [])).
    apply singleton_state_ok. unfold StdMap.ok. simpl. repeat constructor.
  - reflexivity.
  - exists ps. split; [exact Hps|]. split; [exact Hsize|].
    split; [exact Hts|]. apply Habsent.
    injection Hps as <-. simpl.
    intros [?|Hin]%elem_of_cons; [discriminate|by apply elem_of_nil in Hin].
Defined.

Lemma print_meta_needs_entries_witness :
  timeseries.print_meta 1 empty_series_state = (Undefined, empty_series_state).
Proof.
  apply (print_meta_needs_entries empty_series_state 1
           (series_of 1 [] "ts1" false) eq_refl).
  reflexivity.
Defined.

Lemma assign_and_its_source_witness :
  exists σ' t' r',
    timeseries.assign 1 (timeseries.rvalue 2) (two_series_state []) =
      (Returns 1%positive, σ') /\
    timeseries.objects σ' !! 1%positive = Some t' /\
    timeseries.content t' =
      timeseries.content (series_of 2 three_bars label true) /\
    timeseries.objects σ' !! 2%positive = Some r' /\
    timeseries._data r' = StdMap.empty_map.
Proof.
  destruct (assign_and_its_source (two_series_state []) 1 2
              (series_of 1 one_bar "ts1" false)
              (series_of 2 three_bars label true))
    as [(σ' & t' & r' & Hrun & Ht & Hc & _ & _ & Hr & Hd & _) _].
  - discriminate.
  - reflexivity.
  - reflexivity.
  - by exists σ', t', r'.
Defined.

Lemma what_falls_back_to_unknown_witness :
  DataPointException_what 1000 =
    Returns "DataPoint Exception: Vector initialization failed. Index out of range." /\
  tsdb.what 42 =
    Returns "TSDB Interface Exception: Unknown TSDBInterface exception.".
Proof.
  split.
  - apply (what_falls_back_to_unknown 1000). left.
  - apply (what_falls_back_to_unknown 42). vm_compute.
    intros Hin. repeat (apply elem_of_cons in Hin as [[=]|Hin]).
    by apply elem_of_nil in Hin.
Defined.
